(** * Source sampling of the Geant4/Goupil example geometry

    A shallow embedding of [src/G4Geometry.cpp]: the constructor of
    [DetectorConstruction] (box dimensions and normalisation of the
    spectrum table), the forward sampler [RandomiseState], the backward
    sampler [RandomiseBackward] and [g4randomize_source_volume].

    A C++ [double] is modelled by a real number of the Standard Library:
    the theorems of the first part speak of the arithmetic the code
    writes down, without rounding.  The module [Binary64] at the end of
    the definitions runs the constructor's table code, the energy scan,
    the energy of the auxiliary branch and the source volume on IEEE
    binary64 numbers, where the results can be evaluated.  Where
    rounding changes a result, the statement says which of the two
    arithmetics it is about. *)

From Stdlib Require Import String.
From Stdlib Require Import PrimFloat.
From Stdlib Require FloatAxioms.
From Stdlib Require Import Reals Lra Lia List ZArith Bool.
Import ListNotations.
Local Open Scope R_scope.

(* Decimal literals are rounded to the nearest binary64 number, as the
   C++ compiler does. *)
Set Warnings "-inexact-float".

(** ** Units *)

(** Modelled from the spec: the CLHEP unit constants of
    [CLHEP/Units/SystemOfUnits.h] (an external header, not part of the
    sources).  The internal length unit is the millimetre; the spec
    gives the sizes in metres and kilometres, the clearances in
    centimetres and micrometres, and the outputs in cm, cm^2 and cm^3. *)
Module CLHEP.
Definition mm : R := 1.
Definition cm : R := 10 * mm.
Definition m : R := 1000 * mm.
Definition km : R := 1000 * m.
Definition um : R := 1e-6 * m.
Definition cm2 : R := cm * cm.
Definition cm3 : R := cm * cm * cm.
End CLHEP.

(** ** Comparisons of doubles, as booleans *)

Definition Rleb (a b : R) : bool := if Rle_dec a b then true else false.
Definition Rltb (a b : R) : bool := if Rlt_dec a b then true else false.
Definition Rgtb (a b : R) : bool := if Rgt_dec a b then true else false.

(** ** Arrays of three doubles: [double a[3]] and [G4ThreeVector] *)

Definition double3 : Type := (R * R * R)%type.

(** [a[i]]; every index of the source is below 3. *)
Definition get3 (a : double3) (i : nat) : R :=
  let '(a0, a1, a2) := a in
  match i with
  | O => a0
  | S O => a1
  | _ => a2
  end.

(** [a[i] = v] *)
Definition set3 (a : double3) (i : nat) (v : R) : double3 :=
  let '(a0, a1, a2) := a in
  match i with
  | O => (v, a1, a2)
  | S O => (a0, v, a2)
  | _ => (a0, a1, v)
  end.

Notation "a .[ i ]" := (get3 a i) (at level 1, format "a .[ i ]").

(** ** The output record [struct goupil_state] *)

(** Modelled from the spec: the declaration of [struct goupil_state] is
    in a header that is not part of the sources; these are the fields
    the samplers assign and the fields of the ParticleState of the
    specification. *)
Record goupil_float3 : Type := { x : R; y : R; z : R }.

Record goupil_state : Type := {
  energy : R;
  position : goupil_float3;
  direction : goupil_float3;
  weight : R
}.

(** Assignments through the [state] pointer: one field changes, the
    others keep the value the caller's buffer holds. *)
Definition set_energy (v : R) (s : goupil_state) : goupil_state :=
  {| energy := v; position := position s;
     direction := direction s; weight := weight s |}.

Definition set_position (v : goupil_float3) (s : goupil_state) : goupil_state :=
  {| energy := energy s; position := v;
     direction := direction s; weight := weight s |}.

Definition set_direction (v : goupil_float3) (s : goupil_state) : goupil_state :=
  {| energy := energy s; position := position s;
     direction := v; weight := weight s |}.

Definition set_weight (v : R) (s : goupil_state) : goupil_state :=
  {| energy := energy s; position := position s;
     direction := direction s; weight := v |}.

(** ** The spectrum table: [std::vector<std::pair<double, double>>] *)

Definition spectrum_t : Type := list (R * R).

(** [v.back()]: the last element; undefined on an empty vector, which
    is [None] here. *)
Fixpoint back {A : Type} (v : list A) : option A :=
  match v with
  | [] => None
  | [a] => Some a
  | _ :: v' => back v'
  end.

(** First loop of the constructor: [norm += pair.second]. *)
Fixpoint sum_intensities (norm : R) (v : spectrum_t) : R :=
  match v with
  | [] => norm
  | p :: v' => sum_intensities (norm + snd p) v'
  end.

(** Second loop of the constructor:
    [cdf += pair.second * norm; pair.second = cdf]. *)
Fixpoint accumulate (norm cdf : R) (v : spectrum_t) : spectrum_t :=
  match v with
  | [] => []
  | p :: v' =>
      let cdf := cdf + snd p * norm in
      (fst p, cdf) :: accumulate norm cdf v'
  end.

(** "Normalize intensities", lines 37-48, in exact arithmetic; the
    same two loops on doubles are [Binary64.normalize_intensities]. *)
Definition normalize_intensities (v : spectrum_t) : spectrum_t :=
  let norm := sum_intensities 0.0 v in
  let norm := 1.0 / norm in
  accumulate norm 0.0 v.

(** The energy scan of both samplers:
    [for (auto pair: spectrum) if (u <= pair.second) { energy = pair.first; break; }]
    with [energy] holding the fallback before the loop. *)
Fixpoint scan_spectrum (v : spectrum_t) (u : R) (energy : R) : R :=
  match v with
  | [] => energy
  | p :: v' =>
      if Rleb u (snd p) then fst p else scan_spectrum v' u energy
  end.

(** ** The detector: [class DetectorConstruction] *)

Record DetectorConstruction : Type := {
  detectorSize : double3;
  airSize : double3;
  groundSize : double3;
  worldSize : double3;
  detectorOffset : R;
  spectrum : spectrum_t
}.

(** The constructor, lines 23-48.  [table] is the initial value of the
    [spectrum] member, which the class declaration gives. *)
Definition new_DetectorConstruction (table : spectrum_t) : DetectorConstruction :=
  let detectorSize := (20.0 * CLHEP.m, 20.0 * CLHEP.m, 10.0 * CLHEP.m) in
  let airSize := (2.0 * CLHEP.km, 2.0 * CLHEP.km, 1 * CLHEP.km) in
  let groundSize := (airSize.[0], airSize.[1], 1 * CLHEP.m) in
  let worldSize := (airSize.[0], airSize.[1], groundSize.[2] + airSize.[2]) in
  let detectorOffset :=
    0.5 * (- airSize.[2] + detectorSize.[2] + groundSize.[2]) + 5.0 * CLHEP.cm in
  {| detectorSize := detectorSize;
     airSize := airSize;
     groundSize := groundSize;
     worldSize := worldSize;
     detectorOffset := detectorOffset;
     spectrum := normalize_intensities table |}.

(** [DetectorConstruction::Singleton()]: the one detector of the
    process, built on first use. *)
Definition Singleton (table : spectrum_t) : DetectorConstruction :=
  new_DetectorConstruction table.

(** ** The random engine *)

(** The engine behind [G4UniformRand()]: the sequence of numbers it is
    going to deliver and how many of them were drawn so far. *)
Record HepRandomEngine : Type := {
  flat : nat -> R;
  drawn : nat
}.

(** A computation that draws from the engine.  [None] is a call that
    yields no state: the rejection loop still running after the given
    number of rounds, or [back()] of an empty spectrum. *)
Definition Sampler (A : Type) : Type :=
  HepRandomEngine -> option (A * HepRandomEngine).

Definition ret {A : Type} (a : A) : Sampler A :=
  fun e => Some (a, e).

Definition bind {A B : Type} (c : Sampler A) (k : A -> Sampler B) : Sampler B :=
  fun e =>
    match c e with
    | Some (a, e') => k a e'
    | None => None
    end.

Definition lift {A : Type} (o : option A) : Sampler A :=
  fun e =>
    match o with
    | Some a => Some (a, e)
    | None => None
    end.

Definition spinning {A : Type} : Sampler A := fun _ => None.

Notation "v <- c ;; k" := (bind c (fun v => k))
  (at level 61, c at next level, right associativity).

Definition G4UniformRand : Sampler R :=
  fun e => Some (flat e (drawn e), {| flat := flat e; drawn := S (drawn e) |}).

(** The [n]-th number a call starting on engine [e] draws. *)
Definition draw (e : HepRandomEngine) (n : nat) : R := flat e (n + drawn e).

(** Every number of the engine lies in [[0,1)]. *)
Definition uniform (e : HepRandomEngine) : Prop :=
  forall n, 0 <= flat e n < 1.

(** ** The samplers *)

Section Samplers.

(** The macro [M_PI]: the value of [<cmath>], or the fall-back
    3.1415926535897 of lines 14-16.  The theorems hold for any value. *)
Variable M_PI : R.

(** The rejection loop of lines 138-149, run for at most [rounds]
    rounds.  Each round assigns the three coordinates of [position]. *)
Fixpoint sample_position (this : DetectorConstruction) (airOffset : R)
    (rounds : nat) : Sampler double3 :=
  match rounds with
  | O => spinning
  | S rounds' =>
      u0 <- G4UniformRand ;;
      u1 <- G4UniformRand ;;
      u2 <- G4UniformRand ;;
      let position :=
        ((airSize this).[0] * (0.5 - u0),
         (airSize this).[1] * (0.5 - u1),
         (airSize this).[2] * (0.5 - u2) + airOffset) in
      if Rgtb (Rabs position.[0]) (0.5 * (detectorSize this).[0])
         || Rgtb (Rabs position.[1]) (0.5 * (detectorSize this).[1])
         || Rgtb (Rabs (position.[2] - detectorOffset this))
                 (0.5 * (detectorSize this).[2])
      then ret position
      else sample_position this airOffset rounds'
  end.

(** [DetectorConstruction::RandomiseState], lines 123-163. *)
Definition RandomiseState (rounds : nat) (this : DetectorConstruction)
    (state : goupil_state) : Sampler goupil_state :=
  u <- G4UniformRand ;;
  let cosTheta := 2.0 * u - 1.0 in
  let sinTheta := sqrt (1.0 - cosTheta * cosTheta) in
  u <- G4UniformRand ;;
  let phi := 2.0 * M_PI * u in
  let cosPhi := cos phi in
  let sinPhi := sin phi in
  (* Set momentum direction *)
  let state :=
    set_direction
      {| x := sinTheta * cosPhi; y := sinTheta * sinPhi; z := cosTheta |}
      state in
  (* Set position *)
  let airOffset := 0.5 * (groundSize this).[2] in
  position <- sample_position this airOffset rounds ;;
  let state :=
    set_position
      {| x := position.[0] / CLHEP.cm;
         y := position.[1] / CLHEP.cm;
         z := position.[2] / CLHEP.cm |}
      state in
  (* Set energy *)
  last <- lift (back (spectrum this)) ;;
  let state := set_energy (fst last) state in
  u <- G4UniformRand ;;
  ret (set_energy (scan_spectrum (spectrum this) u (energy state)) state).

(** First loop of [RandomiseBackward], lines 171-175: the running sum
    [s] of the face areas and its values [c[axis]]. *)
Definition face_areas (this : DetectorConstruction) : R * double3 :=
  fold_left
    (fun (sc : R * double3) (axis : nat) =>
       let s := fst sc
                + (detectorSize this).[(axis + 1) mod 3]
                  * (detectorSize this).[(axis + 2) mod 3] in
       (s, set3 (snd sc) axis s))
    [0%nat; 1%nat; 2%nat]
    (0.0, (0.0, 0.0, 0.0)).

(** Second loop, lines 177-179:
    [for (; axis < 3; axis++) if (r <= c[axis]) break;]
    with [left] rounds to go; the result is the value of [axis] after
    the loop. *)
Fixpoint search_axis (c : double3) (r : R) (axis left : nat) : nat :=
  match left with
  | O => axis
  | S left' =>
      if Rleb r c.[axis] then axis else search_axis c r (S axis) left'
  end.

(** [DetectorConstruction::RandomiseBackward], lines 165-245.  The
    result is the returned source energy and the state written.
    [std::log] and [std::exp] are the exact [ln] and [exp] here; the
    energy of the auxiliary branch on doubles is
    [Binary64.auxiliary_energy]. *)
Definition RandomiseBackward (alpha : R) (this : DetectorConstruction)
    (state : goupil_state) : Sampler (R * goupil_state) :=
  (* Sample face according to respective surfaces. *)
  let s := fst (face_areas this) in
  let c := snd (face_areas this) in
  u <- G4UniformRand ;;
  let r := s * u in
  let axis := search_axis c r 0 3 in
  let axis := if Nat.eqb axis 3 then 2%nat else axis in
  let delta := if Nat.ltb 0 axis then c.[axis] - c.[axis - 1] else c.[0] in
  let dir : Z := if Rgtb (c.[axis] - r) (0.5 * delta) then (-1)%Z else 1%Z in
  (* Sample position. *)
  let detectorPosition := (0.0, 0.0, detectorOffset this) in
  let position :=
    set3 (0, 0, 0) axis
      (IZR dir * (0.5 * (detectorSize this).[axis] + 1.0 * CLHEP.um)
       + detectorPosition.[axis]) in
  u <- G4UniformRand ;;
  let ii := ((axis + 0 + 1) mod 3)%nat in
  let position :=
    set3 position ii
      ((detectorSize this).[ii] * (0.5 - u) + detectorPosition.[ii]) in
  u <- G4UniformRand ;;
  let ii := ((axis + 1 + 1) mod 3)%nat in
  let position :=
    set3 position ii
      ((detectorSize this).[ii] * (0.5 - u) + detectorPosition.[ii]) in
  let position :=
    (position.[0] / CLHEP.cm, position.[1] / CLHEP.cm, position.[2] / CLHEP.cm) in
  let w := 2 * c.[2] / CLHEP.cm2 in
  (* Sample direction. *)
  u <- G4UniformRand ;;
  let cos_theta := sqrt u in
  let sin_theta := sqrt (1.0 - u) in
  v <- G4UniformRand ;;
  let phi := 2.0 * M_PI * v in
  let direction :=
    set3 (0, 0, 0) ((axis + 1) mod 3) (IZR (- dir) * sin_theta * cos phi) in
  let direction :=
    set3 direction ((axis + 2) mod 3) (IZR (- dir) * sin_theta * sin phi) in
  let direction := set3 direction axis (IZR (- dir) * cos_theta) in
  let w := w * M_PI in
  (* Sample source energy. *)
  last <- lift (back (spectrum this)) ;;
  let source_energy := fst last in
  zeta <- G4UniformRand ;;
  let source_energy := scan_spectrum (spectrum this) zeta source_energy in
  u <- G4UniformRand ;;
  ew <- (if Rltb u alpha
         then ret (source_energy, w / alpha)
         else
           (* Sample state energy. *)
           let emin := 1e-2 in
           let lnr := ln (source_energy / emin) in
           u <- G4UniformRand ;;
           let energy := emin * exp (lnr * u) in
           ret (energy, w * (energy * lnr / (1.0 - alpha)))) ;;
  (* Set state. *)
  let state := set_energy (fst ew) state in
  let state :=
    set_position
      {| x := position.[0]; y := position.[1]; z := position.[2] |} state in
  let state :=
    set_direction
      {| x := direction.[0]; y := direction.[1]; z := direction.[2] |} state in
  let state := set_weight (snd ew) state in
  ret (source_energy, state).

End Samplers.

(** [g4randomize_source_volume], lines 303-309. *)
Definition g4randomize_source_volume (table : spectrum_t) : R :=
  let airSize := airSize (Singleton table) in
  let airVolume := airSize.[0] * airSize.[1] * airSize.[2] in
  let detSize := detectorSize (Singleton table) in
  let detVolume := detSize.[0] * detSize.[1] * detSize.[2] in
  (airVolume - detVolume) / CLHEP.cm3.

(** ** The table code and the source volume on binary64 numbers *)

(** The same loops with [double] read as an IEEE binary64 number
    (round to nearest even, infinities and NaN), which evaluate. *)
Module Binary64.
Local Open Scope float_scope.

Definition spectrum_t : Type := list (float * float).

Fixpoint sum_intensities (norm : float) (v : spectrum_t) : float :=
  match v with
  | [] => norm
  | p :: v' => sum_intensities (norm + snd p) v'
  end.

Fixpoint accumulate (norm cdf : float) (v : spectrum_t) : spectrum_t :=
  match v with
  | [] => []
  | p :: v' =>
      let cdf := cdf + snd p * norm in
      (fst p, cdf) :: accumulate norm cdf v'
  end.

Definition normalize_intensities (v : spectrum_t) : spectrum_t :=
  let norm := sum_intensities 0.0 v in
  let norm := 1.0 / norm in
  accumulate norm 0.0 v.

Fixpoint scan_spectrum (v : spectrum_t) (u : float) (energy : float) : float :=
  match v with
  | [] => energy
  | p :: v' =>
      if u <=? snd p then fst p else scan_spectrum v' u energy
  end.

(** Modelled from the spec: the CLHEP unit constants, as above. *)
Definition mm : float := 1.
Definition cm : float := 10 * mm.
Definition m : float := 1000 * mm.
Definition km : float := 1000 * m.
Definition cm3 : float := cm * cm * cm.

(** Lines 24-28 of the constructor. *)
Definition detectorSize : float * float * float :=
  (20.0 * m, 20.0 * m, 10.0 * m).
Definition airSize : float * float * float :=
  (2.0 * km, 2.0 * km, 1 * km).

Definition g4randomize_source_volume : float :=
  let '(a0, a1, a2) := airSize in
  let airVolume := a0 * a1 * a2 in
  let '(d0, d1, d2) := detectorSize in
  let detVolume := d0 * d1 * d2 in
  (airVolume - detVolume) / cm3.


End Binary64.

(** ** Words of the specification *)

(** Sum of a list of numbers, and the running sum of the first [k+1]
    intensities of a table: the words of the specification, against
    which the loops of the constructor are compared. *)
Fixpoint Rsum (l : list R) : R :=
  match l with
  | [] => 0
  | a :: l' => a + Rsum l'
  end.

Definition intensities (v : spectrum_t) : list R := map snd v.
Definition energies (v : spectrum_t) : list R := map fst v.

Definition running_sum (v : spectrum_t) (k : nat) : R :=
  Rsum (firstn (S k) (intensities v)).

Definition nondecreasing (l : list R) : Prop :=
  forall i j, (i <= j < length l)%nat -> nth i l 0 <= nth j l 0.

(** ** Notions for the statements *)

(** The engine after one more draw. *)
Definition advance (e : HepRandomEngine) : HepRandomEngine :=
  {| flat := flat e; drawn := S (drawn e) |}.

(** [sample(u)] of the specification: the energy the scan of both
    samplers selects for the number [u], the fallback being the energy
    of the last entry. *)
Definition sample (v : spectrum_t) (u : R) : option R :=
  match back v with
  | Some last => Some (scan_spectrum v u (fst last))
  | None => None
  end.

(** A point, in internal units, within half the air extent of the
    centre of the air box, which lies half the ground thickness above
    the origin. *)
Definition inside_air (this : DetectorConstruction) (p : double3) : Prop :=
  Rabs p.[0] <= 0.5 * (airSize this).[0]
  /\ Rabs p.[1] <= 0.5 * (airSize this).[1]
  /\ Rabs (p.[2] - 0.5 * (groundSize this).[2]) <= 0.5 * (airSize this).[2].

(** A point, in internal units, beyond the detector box on at least one
    axis. *)
Definition outside_detector (this : DetectorConstruction) (p : double3) : Prop :=
  Rabs p.[0] > 0.5 * (detectorSize this).[0]
  \/ Rabs p.[1] > 0.5 * (detectorSize this).[1]
  \/ Rabs (p.[2] - detectorOffset this) > 0.5 * (detectorSize this).[2].

(** The point the rejection loop tries with the numbers [u0], [u1], [u2]. *)
Definition candidate (this : DetectorConstruction) (u0 u1 u2 : R) : double3 :=
  ((airSize this).[0] * (0.5 - u0),
   (airSize this).[1] * (0.5 - u1),
   (airSize this).[2] * (0.5 - u2) + 0.5 * (groundSize this).[2]).

(** The position of a state, back in internal units. *)
Definition internal_position (s : goupil_state) : double3 :=
  (x (position s) * CLHEP.cm, y (position s) * CLHEP.cm, z (position s) * CLHEP.cm).

(** The total face area of the detector in cm^2, one face per axis. *)
Definition totalArea (this : DetectorConstruction) : R :=
  ((detectorSize this).[0] * (detectorSize this).[1]
   + (detectorSize this).[1] * (detectorSize this).[2]
   + (detectorSize this).[2] * (detectorSize this).[0]) / CLHEP.cm2.

(** The direction of lines 124-133, from the two numbers drawn. *)
Definition isotropic_direction (M_PI u0 u1 : R) : goupil_float3 :=
  let cosTheta := 2.0 * u0 - 1.0 in
  let sinTheta := sqrt (1.0 - cosTheta * cosTheta) in
  let phi := 2.0 * M_PI * u1 in
  {| x := sinTheta * cos phi; y := sinTheta * sin phi; z := cosTheta |}.

(** The engine after [n] more draws. *)
Definition skip (n : nat) (e : HepRandomEngine) : HepRandomEngine :=
  {| flat := flat e; drawn := n + drawn e |}.

(** ** The bulk entry points *)

(** A write or read past the end of a caller's buffer: no defined
    result. *)
Definition out_of_bounds {A : Type} : Sampler A := fun _ => None.

(** [g4randomize_states], lines 286-290: the first [size] states of the
    buffer are filled in turn, each by one call of [RandomiseState] on
    the detector of the process. *)
Fixpoint g4randomize_states (M_PI : R) (rounds : nat) (table : spectrum_t)
    (size : nat) (states : list goupil_state) : Sampler (list goupil_state) :=
  match size with
  | O => ret states
  | S size' =>
      match states with
      | [] => out_of_bounds
      | state :: states' =>
          state <- RandomiseState M_PI rounds (Singleton table) state ;;
          states' <- g4randomize_states M_PI rounds table size' states' ;;
          ret (state :: states')
      end
  end.

(** [g4randomize_backward], lines 292-301: both buffers advance
    together, [*sources_energies] receiving the value returned for
    [*states]. *)
Fixpoint g4randomize_backward (M_PI : R) (table : spectrum_t) (alpha : R)
    (size : nat) (states : list goupil_state) (sources_energies : list R)
    : Sampler (list goupil_state * list R) :=
  match size with
  | O => ret (states, sources_energies)
  | S size' =>
      match states, sources_energies with
      | state :: states', _ :: sources_energies' =>
          r <- RandomiseBackward M_PI alpha (Singleton table) state ;;
          rest <- g4randomize_backward M_PI table alpha size' states'
                    sources_energies' ;;
          ret (snd r :: fst rest, fst r :: snd rest)
      | _, _ => out_of_bounds
      end
  end.

(** ** Notions for the backward sampler *)

(** The face axis of lines 176-180, from the number drawn first. *)
Definition backward_axis (this : DetectorConstruction) (u : R) : nat :=
  let s := fst (face_areas this) in
  let c := snd (face_areas this) in
  let r := s * u in
  let axis := search_axis c r 0 3 in
  if Nat.eqb axis 3 then 2%nat else axis.

(** The side of lines 181-182, from the number drawn first. *)
Definition backward_dir (this : DetectorConstruction) (u : R) : Z :=
  let s := fst (face_areas this) in
  let c := snd (face_areas this) in
  let r := s * u in
  let axis := backward_axis this u in
  let delta := if Nat.ltb 0 axis then c.[axis] - c.[axis - 1] else c.[0] in
  if Rgtb (c.[axis] - r) (0.5 * delta) then (-1)%Z else 1%Z.

(** The centre of the detector, [detectorPosition] of line 186. *)
Definition detectorPosition (this : DetectorConstruction) : double3 :=
  (0.0, 0.0, detectorOffset this).

(** The position and the direction of lines 185-207, from the numbers
    drawn. *)
Definition backward_position (this : DetectorConstruction) (u0 u1 u2 : R)
    : goupil_float3 :=
  let axis := backward_axis this u0 in
  let dir := backward_dir this u0 in
  let i1 := ((axis + 0 + 1) mod 3)%nat in
  let i2 := ((axis + 1 + 1) mod 3)%nat in
  let position :=
    set3 (0, 0, 0) axis
      (IZR dir * (0.5 * (detectorSize this).[axis] + 1.0 * CLHEP.um)
       + (detectorPosition this).[axis]) in
  let position :=
    set3 position i1
      ((detectorSize this).[i1] * (0.5 - u1) + (detectorPosition this).[i1]) in
  let position :=
    set3 position i2
      ((detectorSize this).[i2] * (0.5 - u2) + (detectorPosition this).[i2]) in
  {| x := position.[0] / CLHEP.cm;
     y := position.[1] / CLHEP.cm;
     z := position.[2] / CLHEP.cm |}.

Definition backward_direction (M_PI : R) (this : DetectorConstruction)
    (u0 u3 u4 : R) : goupil_float3 :=
  let axis := backward_axis this u0 in
  let dir := backward_dir this u0 in
  let cos_theta := sqrt u3 in
  let sin_theta := sqrt (1.0 - u3) in
  let phi := 2.0 * M_PI * u4 in
  let direction :=
    set3 (0, 0, 0) ((axis + 1) mod 3) (IZR (- dir) * sin_theta * cos phi) in
  let direction :=
    set3 direction ((axis + 2) mod 3) (IZR (- dir) * sin_theta * sin phi) in
  let direction := set3 direction axis (IZR (- dir) * cos_theta) in
  {| x := direction.[0]; y := direction.[1]; z := direction.[2] |}.

(** The direction of a state as an array. *)
Definition direction3 (s : goupil_state) : double3 :=
  (x (direction s), y (direction s), z (direction s)).

(** ** The scene graph *)

(** Modelled from the spec: the Geant4 classes [G4Box], [G4LogicalVolume]
    and [G4PVPlacement] are an external library.  A box keeps its name
    and half-lengths, a logical volume its solid, material, name and
    the list of the placements put into it, a placement its rotation,
    translation, logical volume, name and mother.  Objects live in a
    heap of cells addressed by number; [new] takes the next cell, [delete]
    empties a live cell, and any access to a cell that is not live has
    no defined result.  A placement built with a mother volume is
    appended to the daughters of the mother; a material is known by its
    name. *)

Record G4Box : Type := {
  box_name : string;
  box_half : double3
}.

Record G4LogicalVolume : Type := {
  lv_solid : nat;
  lv_material : string;
  lv_name : string;
  lv_daughters : list nat
}.

Record G4PVPlacement : Type := {
  pv_rot : option double3;
  pv_tlate : double3;
  pv_logical : nat;
  pv_name : string;
  pv_mother : option nat;
  pv_many : bool;
  pv_copy : nat
}.

Inductive G4Object : Type :=
| Solid (b : G4Box)
| Logical (l : G4LogicalVolume)
| Physical (p : G4PVPlacement).

Definition G4Heap : Type := list (option G4Object).

Definition Geant (A : Type) : Type := G4Heap -> option (A * G4Heap).

Definition gret {A : Type} (a : A) : Geant A := fun h => Some (a, h).

Definition gbind {A B : Type} (c : Geant A) (k : A -> Geant B) : Geant B :=
  fun h =>
    match c h with
    | Some (a, h') => k a h'
    | None => None
    end.

Definition invalid {A : Type} : Geant A := fun _ => None.

Notation "v <~ c ;; k" := (gbind c (fun v => k))
  (at level 61, c at next level, right associativity).

(** The heap with cell [i] replaced. *)
Fixpoint set_cell (h : G4Heap) (i : nat) (c : option G4Object) : G4Heap :=
  match h, i with
  | [], _ => []
  | _ :: h', O => c :: h'
  | c' :: h', S i' => c' :: set_cell h' i' c
  end.

(** [new]: the object goes to the next free address. *)
Definition alloc (o : G4Object) : Geant nat :=
  fun h => Some (length h, h ++ [Some o]).

Definition load (i : nat) : Geant G4Object :=
  fun h =>
    match nth_error h i with
    | Some (Some o) => Some (o, h)
    | _ => None
    end.

Definition store (i : nat) (o : G4Object) : Geant unit :=
  fun h =>
    match nth_error h i with
    | Some (Some _) => Some (tt, set_cell h i (Some o))
    | _ => None
    end.

(** [delete]: the cell must hold a live object. *)
Definition delete (i : nat) : Geant unit :=
  fun h =>
    match nth_error h i with
    | Some (Some _) => Some (tt, set_cell h i None)
    | _ => None
    end.

Definition load_logical (i : nat) : Geant G4LogicalVolume :=
  o <~ load i ;;
  match o with
  | Logical l => gret l
  | _ => invalid
  end.

Definition load_physical (i : nat) : Geant G4PVPlacement :=
  o <~ load i ;;
  match o with
  | Physical p => gret p
  | _ => invalid
  end.

Definition AddDaughter (logical : nat) (p : nat) : Geant unit :=
  l <~ load_logical logical ;;
  store logical
    (Logical {| lv_solid := lv_solid l; lv_material := lv_material l;
                lv_name := lv_name l;
                lv_daughters := lv_daughters l ++ [p] |}).

(** [G4LogicalVolume::RemoveDaughter]: the first entry equal to [p] is
    erased. *)
Fixpoint erase_first (p : nat) (l : list nat) : list nat :=
  match l with
  | [] => []
  | q :: l' => if Nat.eqb q p then l' else q :: erase_first p l'
  end.

Definition RemoveDaughter (logical : nat) (p : nat) : Geant unit :=
  l <~ load_logical logical ;;
  store logical
    (Logical {| lv_solid := lv_solid l; lv_material := lv_material l;
                lv_name := lv_name l;
                lv_daughters := erase_first p (lv_daughters l) |}).

(** [new G4PVPlacement(rot, tlate, logical, name, mother, many, copy)]. *)
Definition new_G4PVPlacement (rot : option double3) (tlate : double3)
    (logical : nat) (name : string) (mother : option nat) (many : bool)
    (copy : nat) : Geant nat :=
  p <~ alloc (Physical {| pv_rot := rot; pv_tlate := tlate;
                           pv_logical := logical; pv_name := name;
                           pv_mother := mother; pv_many := many;
                           pv_copy := copy |}) ;;
  match mother with
  | Some m => _ <~ AddDaughter m p ;; gret p
  | None => gret p
  end.

(** [PlaceInVolume], lines 105-121. *)
Definition PlaceInVolume (name : string) (dim : double3) (material : string)
    (rot : option double3) (pos : double3) (motherVolume : nat) : Geant nat :=
  solid <~ alloc (Solid {| box_name := name;
                           box_half := (0.5 * dim.[0], 0.5 * dim.[1], 0.5 * dim.[2]) |}) ;;
  logicalVolume <~ alloc (Logical {| lv_solid := solid; lv_material := material;
                                     lv_name := name; lv_daughters := [] |}) ;;
  _ <~ new_G4PVPlacement rot pos logicalVolume name (Some motherVolume) false 0 ;;
  gret logicalVolume.

(** [DetectorConstruction::Construct], lines 58-103; the result is the
    address of the placement of the world. *)
Definition Construct (this : DetectorConstruction) : Geant nat :=
  solid <~ alloc (Solid {| box_name := "World";
                           box_half := (0.5 * (worldSize this).[0],
                                        0.5 * (worldSize this).[1],
                                        0.5 * (worldSize this).[2]) |}) ;;
  world <~ alloc (Logical {| lv_solid := solid; lv_material := "G4_AIR";
                             lv_name := "World"; lv_daughters := [] |}) ;;
  airVolume <~ PlaceInVolume "Air" (airSize this) "G4_AIR" None
                 (0.0, 0.0, 0.5 * (groundSize this).[2]) world ;;
  _ <~ PlaceInVolume "Ground" (groundSize this) "G4_CALCIUM_CARBONATE" None
         (0.0, 0.0, -0.5 * (airSize this).[2]) world ;;
  _ <~ PlaceInVolume "Detector" (detectorSize this) "G4_AIR" None
         (0.0, 0.0, detectorOffset this - 0.5 * (groundSize this).[2])
         airVolume ;;
  new_G4PVPlacement None (0.0, 0.0, 0.0) world "World" None false 0.

(** [G4Goupil::NewGeometry], lines 248-251. *)
Definition NewGeometry (table : spectrum_t) : Geant nat :=
  Construct (Singleton table).

(** The loop of lines 256-260:
    [while (logical->GetNoDaughters()) {...}], with [drop] the recursive
    call. *)
Fixpoint drop_daughters (drop : nat -> Geant unit) (fuel : nat)
    (logical : nat) : Geant unit :=
  match fuel with
  | O => invalid
  | S fuel' =>
      l <~ load_logical logical ;;
      match lv_daughters l with
      | [] => gret tt
      | daughter :: _ =>
          _ <~ RemoveDaughter logical daughter ;;
          _ <~ drop daughter ;;
          drop_daughters drop fuel' logical
      end
  end.

(** [G4Goupil::DropGeometry], lines 253-265, with a bound on the depth
    of the recursion and on the rounds of the loop. *)
Fixpoint DropGeometry (fuel : nat) (volume : nat) : Geant unit :=
  match fuel with
  | O => invalid
  | S fuel' =>
      p <~ load_physical volume ;;
      let logical := pv_logical p in
      _ <~ drop_daughters (DropGeometry fuel') fuel' logical ;;
      l <~ load_logical logical ;;
      _ <~ delete (lv_solid l) ;;
      _ <~ delete logical ;;
      delete volume
  end.


(** ** Notions for the scene graph *)

Definition vadd (a b : double3) : double3 :=
  (a.[0] + b.[0], a.[1] + b.[1], a.[2] + b.[2]).

(** A box in world coordinates: its centre and its half-lengths. *)
Definition box : Type := (double3 * double3)%type.

(** The boxes of the volumes below a placement, each with its name, in
    the coordinates of the world: a placement translates the frame of
    its mother (no rotation occurs in this geometry). *)
Fixpoint placed_boxes (fuel : nat) (h : G4Heap) (origin : double3)
    (volume : nat) : option (list (string * box)) :=
  match fuel with
  | O => None
  | S fuel' =>
      match load_physical volume h with
      | Some (p, _) =>
          match load_logical (pv_logical p) h with
          | Some (l, _) =>
              match load (lv_solid l) h with
              | Some (Solid b, _) =>
                  let centre := vadd origin (pv_tlate p) in
                  option_map
                    (fun rest => (lv_name l, (centre, box_half b)) :: rest)
                    ((fix daughters (ds : list nat) :=
                        match ds with
                        | [] => Some []
                        | d :: ds' =>
                            match placed_boxes fuel' h centre d, daughters ds' with
                            | Some b1, Some b2 => Some (b1 ++ b2)
                            | _, _ => None
                            end
                        end) (lv_daughters l))
              | _ => None
              end
          | None => None
          end
      | None => None
      end
  end.

(** The scene as the tree it is: a volume with its name, its box in
    world coordinates and the trees of the daughters its logical volume
    lists, in the order they were added. *)
#[local] Set Warnings "-register-all".
Inductive scene_tree : Type :=
| Volume (name : string) (b : box) (daughters : list scene_tree).

Fixpoint placed_tree (fuel : nat) (h : G4Heap) (origin : double3)
    (volume : nat) : option scene_tree :=
  match fuel with
  | O => None
  | S fuel' =>
      match load_physical volume h with
      | Some (p, _) =>
          match load_logical (pv_logical p) h with
          | Some (l, _) =>
              match load (lv_solid l) h with
              | Some (Solid b, _) =>
                  let centre := vadd origin (pv_tlate p) in
                  option_map
                    (Volume (lv_name l) (centre, box_half b))
                    ((fix daughters (ds : list nat) :=
                        match ds with
                        | [] => Some []
                        | d :: ds' =>
                            match placed_tree fuel' h centre d, daughters ds' with
                            | Some t, Some ts => Some (t :: ts)
                            | _, _ => None
                            end
                        end) (lv_daughters l))
              | _ => None
              end
          | None => None
          end
      | None => None
      end
  end.

(** The logical volume a placement names as its mother, by name: the
    world has none. *)
Definition mother_name (h : G4Heap) (volume : nat) : option (option string) :=
  match load_physical volume h with
  | Some (p, _) =>
      match pv_mother p with
      | None => Some None
      | Some mother =>
          match load_logical mother h with
          | Some (l, _) => Some (Some (lv_name l))
          | None => None
          end
      end
  | None => None
  end.

Definition half (size : double3) : double3 :=
  (0.5 * size.[0], 0.5 * size.[1], 0.5 * size.[2]).

(** The four boxes the scene is expected to hold. *)
Definition world_box (this : DetectorConstruction) : box :=
  ((0, 0, 0), half (worldSize this)).
Definition air_box (this : DetectorConstruction) : box :=
  ((0, 0, 0.5 * (groundSize this).[2]), half (airSize this)).
Definition ground_box (this : DetectorConstruction) : box :=
  ((0, 0, - (0.5 * (airSize this).[2])), half (groundSize this)).
Definition detector_box (this : DetectorConstruction) : box :=
  ((0, 0, detectorOffset this), half (detectorSize this)).

Definition in_box (b : box) (p : double3) : Prop :=
  Rabs (p.[0] - (fst b).[0]) <= (snd b).[0]
  /\ Rabs (p.[1] - (fst b).[1]) <= (snd b).[1]
  /\ Rabs (p.[2] - (fst b).[2]) <= (snd b).[2].

(** The box of the volume called [name] in a scene read from the heap. *)
Fixpoint scene_box (boxes : list (string * box)) (name : string) : option box :=
  match boxes with
  | [] => None
  | (n, b) :: boxes' => if String.eqb n name then Some b else scene_box boxes' name
  end.

(** A state of the source region of the forward sampler: in the air
    box and outside the detector box. *)
Definition in_source_region (table : spectrum_t) (s : goupil_state) : Prop :=
  inside_air (Singleton table) (internal_position s)
  /\ outside_detector (Singleton table) (internal_position s).

(** ** Inputs for the examples *)

(** An engine that delivers the same number at every draw. *)
Definition steady (u : R) : HepRandomEngine :=
  {| flat := fun _ => u; drawn := 0 |}.

(** An engine whose numbers repeat with period three: 0.5, 0.99, 0.5.
    After the two numbers of the direction every triple drawn is
    (0.5, 0.5, 0.99). *)
Definition stuck_engine : HepRandomEngine :=
  {| flat := fun n => if Nat.eqb (n mod 3) 1 then 0.99 else 0.5; drawn := 0 |}.

(** A state buffer filled with zeros. *)
Definition zeroed : goupil_state :=
  {| energy := 0;
     position := {| x := 0; y := 0; z := 0 |};
     direction := {| x := 0; y := 0; z := 0 |};
     weight := 0 |}.

(** A table of three lines with the intensities (1,1,2). *)
Definition three_lines : spectrum_t := [(0.5, 1); (1.5, 1); (2.5, 2)].

(** A table with one line on the floor 0.01 of the auxiliary branch. *)
Definition floor_line : spectrum_t := [(1e-2, 1)].

(** The fall-back value of [M_PI], line 15. *)
Definition M_PI_fallback : R := 3.1415926535897.

(** * Properties *)

(** ** Comparisons *)

Lemma Rleb_true (a b : R) : Rleb a b = true <-> a <= b.
Proof. unfold Rleb. destruct (Rle_dec a b); split; intros; auto; discriminate || contradiction. Qed.

Lemma Rleb_false (a b : R) : Rleb a b = false <-> b < a.
Proof.
  unfold Rleb. destruct (Rle_dec a b); split; intros; auto; try discriminate; lra.
Qed.

Lemma Rltb_true (a b : R) : Rltb a b = true <-> a < b.
Proof. unfold Rltb. destruct (Rlt_dec a b); split; intros; auto; discriminate || contradiction. Qed.

Lemma Rltb_false (a b : R) : Rltb a b = false <-> b <= a.
Proof.
  unfold Rltb. destruct (Rlt_dec a b); split; intros; auto; try discriminate; lra.
Qed.

Lemma Rgtb_true (a b : R) : Rgtb a b = true <-> a > b.
Proof. unfold Rgtb. destruct (Rgt_dec a b); split; intros; auto; discriminate || contradiction. Qed.

Lemma Rgtb_false (a b : R) : Rgtb a b = false <-> a <= b.
Proof.
  unfold Rgtb. destruct (Rgt_dec a b); split; intros; auto; try discriminate; lra.
Qed.

(** ** The spectrum table *)

Lemma sum_intensities_Rsum (v : spectrum_t) (norm : R) :
  sum_intensities norm v = norm + Rsum (intensities v).
Proof.
  revert norm. induction v as [|p v IH]; intros norm; simpl.
  - lra.
  - rewrite IH. unfold intensities. lra.
Qed.

Lemma accumulate_energies (v : spectrum_t) (norm cdf : R) :
  energies (accumulate norm cdf v) = energies v.
Proof.
  revert cdf. induction v as [|p v IH]; intros cdf; simpl.
  - reflexivity.
  - f_equal. apply IH.
Qed.

Lemma accumulate_length (v : spectrum_t) (norm cdf : R) :
  length (accumulate norm cdf v) = length v.
Proof.
  revert cdf. induction v as [|p v IH]; intros cdf; simpl; auto.
Qed.

Lemma accumulate_nth (v : spectrum_t) (norm cdf : R) (k : nat) :
  (k < length v)%nat ->
  nth k (intensities (accumulate norm cdf v)) 0
  = cdf + running_sum v k * norm.
Proof.
  revert cdf k. induction v as [|p v IH]; intros cdf k Hk; simpl in Hk.
  - lia.
  - destruct k as [|k].
    + unfold running_sum. simpl. destruct v; simpl; lra.
    + simpl. unfold intensities in IH. rewrite IH by lia.
      unfold running_sum. simpl. lra.
Qed.

Lemma Rsum_nonneg (l : list R) :
  Forall (fun a => 0 <= a) l -> 0 <= Rsum l.
Proof.
  induction 1 as [|a l Ha _ IH]; simpl; lra.
Qed.

Lemma Rsum_firstn_nonneg (l : list R) (j : nat) :
  Forall (fun a => 0 <= a) l -> 0 <= Rsum (firstn j l).
Proof.
  intros Hl. revert j.
  induction Hl as [|a l Ha Hl IH]; intros [|j]; simpl; try lra.
  specialize (IH j). lra.
Qed.


Lemma back_nth {A : Type} (v : list A) (d : A) :
  v <> [] -> back v = Some (nth (length v - 1) v d).
Proof.
  induction v as [|a v IH]; intros Hv.
  - contradiction.
  - destruct v as [|b v].
    + reflexivity.
    + change (back (a :: b :: v)) with (back (b :: v)).
      rewrite IH by discriminate.
      simpl. rewrite Nat.sub_0_r. reflexivity.
Qed.



Lemma normalize_nth (v : spectrum_t) (k : nat) :
  (k < length v)%nat ->
  nth k (intensities (normalize_intensities v)) 0
  = running_sum v k / Rsum (intensities v).
Proof.
  intros Hk. unfold normalize_intensities.
  rewrite accumulate_nth by assumption.
  rewrite sum_intensities_Rsum. unfold Rdiv.
  replace (0.0 + Rsum (intensities v)) with (Rsum (intensities v)) by lra.
  lra.
Qed.

Lemma intensities_nonneg (v : spectrum_t) :
  Forall (fun p => 0 <= snd p) v -> Forall (fun a => 0 <= a) (intensities v).
Proof.
  unfold intensities. induction 1; simpl; constructor; auto.
Qed.



(** The table loops on doubles. *)

Module Binary64Facts.
Local Open Scope float_scope.

Lemma b64_sum_zero (v : Binary64.spectrum_t) :
  Forall (fun p => snd p = 0) v -> Binary64.sum_intensities 0 v = 0.
Proof.
  induction 1 as [|p v Hp _ IH]; simpl.
  - reflexivity.
  - rewrite Hp. exact IH.
Qed.

Lemma b64_accumulate_nan (v : Binary64.spectrum_t) :
  Forall (fun p => snd p = 0) v ->
  Forall (fun p => snd p = nan) (Binary64.accumulate infinity nan v).
Proof.
  induction 1 as [|p v Hp _ IH]; simpl.
  - constructor.
  - rewrite Hp. constructor; [reflexivity | exact IH].
Qed.

Lemma b64_normalize_zero_nan (v : Binary64.spectrum_t) :
  Forall (fun p => snd p = 0) v ->
  Forall (fun p => snd p = nan) (Binary64.normalize_intensities v).
Proof.
  intros Hv. unfold Binary64.normalize_intensities.
  rewrite (b64_sum_zero v Hv).
  change (1.0 / 0) with infinity.
  destruct Hv as [|p v Hp Hv]; simpl.
  - constructor.
  - rewrite Hp. constructor; [reflexivity|].
    apply b64_accumulate_nan. exact Hv.
Qed.

Lemma b64_accumulate_energies (v : Binary64.spectrum_t) (norm cdf : float) :
  map fst (Binary64.accumulate norm cdf v) = map fst v.
Proof.
  revert cdf. induction v as [|p v IH]; intros cdf; simpl.
  - reflexivity.
  - f_equal. apply IH.
Qed.

Lemma b64_normalize_energies (v : Binary64.spectrum_t) :
  map fst (Binary64.normalize_intensities v) = map fst v.
Proof. apply b64_accumulate_energies. Qed.



Lemma b64_leb_nan (u : float) : (u <=? nan) = false.
Proof.
  rewrite FloatAxioms.leb_spec.
  change (FloatOps.Prim2SF nan) with SpecFloat.S754_nan.
  unfold SpecFloat.SFleb.
  destruct (FloatOps.Prim2SF u); reflexivity.
Qed.

Lemma b64_scan_nan (v : Binary64.spectrum_t) (u fallback : float) :
  Forall (fun p => snd p = nan) v ->
  Binary64.scan_spectrum v u fallback = fallback.
Proof.
  induction 1 as [|p v Hp _ IH]; simpl.
  - reflexivity.
  - rewrite Hp, b64_leb_nan. exact IH.
Qed.
End Binary64Facts.

Lemma normalize_112 (e1 e2 e3 : R) :
  normalize_intensities [(e1, 1); (e2, 1); (e3, 2)]
  = [(e1, 0.25); (e2, 0.5); (e3, 1.0)].
Proof.
  unfold normalize_intensities. simpl.
  repeat (f_equal; try lra).
Qed.





(** ** The energy scan *)

Lemma scan_first (v : spectrum_t) (u fallback : R) (i : nat) :
  (i < length v)%nat ->
  u <= nth i (intensities v) 0 ->
  (forall j, (j < i)%nat -> nth j (intensities v) 0 < u) ->
  scan_spectrum v u fallback = nth i (energies v) 0.
Proof.
  revert i. induction v as [|p v IH]; intros i Hi Hle Hlt; simpl in Hi.
  - lia.
  - simpl. destruct i as [|i].
    + simpl in Hle. apply Rleb_true in Hle. rewrite Hle. reflexivity.
    + pose proof (Hlt 0%nat ltac:(lia)) as H0. simpl in H0.
      apply Rleb_false in H0. rewrite H0.
      apply IH; [lia | exact Hle |].
      intros j Hj. apply (Hlt (S j)). lia.
Qed.

Lemma scan_overshoot (v : spectrum_t) (u fallback : R) :
  (forall p, In p v -> snd p < u) ->
  scan_spectrum v u fallback = fallback.
Proof.
  induction v as [|p v IH]; intros Hall; simpl.
  - reflexivity.
  - pose proof (Hall p (or_introl eq_refl)) as Hp.
    apply Rleb_false in Hp. rewrite Hp.
    apply IH. intros q Hq. apply Hall. right. exact Hq.
Qed.

Lemma sample_first (v : spectrum_t) (u : R) (i : nat) :
  (i < length v)%nat ->
  u <= nth i (intensities v) 0 ->
  (forall j, (j < i)%nat -> nth j (intensities v) 0 < u) ->
  sample v u = Some (nth i (energies v) 0).
Proof.
  intros Hi Hle Hlt. unfold sample.
  destruct (back v) as [last|] eqn:Hb.
  - f_equal. apply scan_first; assumption.
  - destruct v as [|p v]; [simpl in Hi; lia|].
    rewrite (back_nth _ p) in Hb by discriminate. discriminate.
Qed.

(** ** The forward sampler *)

Section Forward.

Variable M_PI : R.

Lemma RandomiseState_inv rounds this st e st' e' :
  RandomiseState M_PI rounds this st e = Some (st', e') ->
  exists p e1 last,
    sample_position this (0.5 * (groundSize this).[2]) rounds
      (advance (advance e)) = Some (p, e1)
    /\ back (spectrum this) = Some last
    /\ e' = advance e1
    /\ st' =
       {| energy := scan_spectrum (spectrum this) (draw e1 0) (fst last);
          position := {| x := p.[0] / CLHEP.cm;
                         y := p.[1] / CLHEP.cm;
                         z := p.[2] / CLHEP.cm |};
          direction := isotropic_direction M_PI (draw e 0) (draw e 1);
          weight := weight st |}.
Proof.
  unfold RandomiseState, bind, G4UniformRand, lift, ret.
  intros H. cbn [flat drawn] in H.
  change {| flat := flat e; drawn := S (S (drawn e)) |}
    with (advance (advance e)) in H.
  destruct (sample_position this _ rounds (advance (advance e)))
    as [[p e1]|] eqn:Hp; [|discriminate].
  destruct (back (spectrum this)) as [last|] eqn:Hb; [|discriminate].
  injection H as Hst He.
  exists p, e1, last. repeat split; auto.
Qed.

Lemma RandomiseState_returns rounds this st e p e1 last :
  sample_position this (0.5 * (groundSize this).[2]) rounds
    (advance (advance e)) = Some (p, e1) ->
  back (spectrum this) = Some last ->
  exists st', RandomiseState M_PI rounds this st e = Some (st', advance e1).
Proof.
  intros Hp Hb.
  unfold RandomiseState, bind, G4UniformRand, lift, ret.
  cbn [flat drawn].
  change {| flat := flat e; drawn := S (S (drawn e)) |}
    with (advance (advance e)).
  rewrite Hp, Hb. eexists. reflexivity.
Qed.

Lemma draw_skip (n k : nat) (e : HepRandomEngine) :
  draw (skip n e) k = draw e (k + n).
Proof.
  unfold draw, skip. simpl. f_equal. lia.
Qed.

Lemma skip_skip (n k : nat) (e : HepRandomEngine) :
  skip n (skip k e) = skip (n + k) e.
Proof.
  unfold skip. simpl. f_equal. lia.
Qed.

Lemma sample_position_step (this : DetectorConstruction) (rounds : nat)
    (e : HepRandomEngine) :
  let p := candidate this (draw e 0) (draw e 1) (draw e 2) in
  sample_position this (0.5 * (groundSize this).[2]) (S rounds) e
  = if Rgtb (Rabs p.[0]) (0.5 * (detectorSize this).[0])
       || Rgtb (Rabs p.[1]) (0.5 * (detectorSize this).[1])
       || Rgtb (Rabs (p.[2] - detectorOffset this))
               (0.5 * (detectorSize this).[2])
    then Some (p, skip 3 e)
    else sample_position this (0.5 * (groundSize this).[2]) rounds (skip 3 e).
Proof.
  intros p. unfold p, candidate, draw, skip. simpl.
  unfold bind, G4UniformRand, ret. simpl.
  match goal with |- (if ?b then _ else _) _ = _ => destruct b end;
    reflexivity.
Qed.

Lemma accept_outside (this : DetectorConstruction) (p : double3) :
  Rgtb (Rabs p.[0]) (0.5 * (detectorSize this).[0])
  || Rgtb (Rabs p.[1]) (0.5 * (detectorSize this).[1])
  || Rgtb (Rabs (p.[2] - detectorOffset this)) (0.5 * (detectorSize this).[2])
  = true
  <-> outside_detector this p.
Proof.
  unfold outside_detector.
  rewrite !orb_true_iff, !Rgtb_true. tauto.
Qed.

Lemma sample_position_inv (this : DetectorConstruction) (rounds : nat)
    (e : HepRandomEngine) (p : double3) (e' : HepRandomEngine) :
  sample_position this (0.5 * (groundSize this).[2]) rounds e = Some (p, e') ->
  exists k, (k < rounds)%nat
    /\ e' = skip (3 * S k) e
    /\ p = candidate this (draw e (3 * k)) (draw e (3 * k + 1)) (draw e (3 * k + 2))
    /\ outside_detector this p.
Proof.
  revert e. induction rounds as [|rounds IH]; intros e H.
  - discriminate.
  - rewrite sample_position_step in H. cbv zeta in H.
    match type of H with (if ?b then _ else _) = _ => destruct b eqn:Hb end.
    + injection H as Hp He. exists 0%nat. subst p e'.
      split; [lia|]. split; [reflexivity|]. split; [reflexivity|].
      apply accept_outside. exact Hb.
    + destruct (IH _ H) as (k & Hk & He & Hp & Hout).
      exists (S k). split; [lia|]. split; [|split].
      * rewrite He, skip_skip. f_equal. lia.
      * rewrite Hp, !draw_skip.
        replace (3 * k + 3)%nat with (3 * S k)%nat by lia.
        replace (3 * k + 1 + 3)%nat with (3 * S k + 1)%nat by lia.
        replace (3 * k + 2 + 3)%nat with (3 * S k + 2)%nat by lia.
        reflexivity.
      * exact Hout.
Qed.

Lemma sample_position_returns (this : DetectorConstruction) (rounds : nat)
    (e : HepRandomEngine) (k : nat) :
  (k < rounds)%nat ->
  outside_detector this
    (candidate this (draw e (3 * k)) (draw e (3 * k + 1)) (draw e (3 * k + 2))) ->
  exists p e',
    sample_position this (0.5 * (groundSize this).[2]) rounds e = Some (p, e').
Proof.
  revert e k. induction rounds as [|rounds IH]; intros e k Hk Hout.
  - lia.
  - rewrite sample_position_step. cbv zeta.
    match goal with |- context [if ?b then _ else _] => destruct b eqn:Hb end.
    + eauto.
    + destruct k as [|k].
      * change (outside_detector this
                  (candidate this (draw e 0) (draw e 1) (draw e 2))) in Hout.
        apply accept_outside in Hout. rewrite Hout in Hb. discriminate.
      * apply (IH (skip 3 e) k); [lia|].
        rewrite !draw_skip.
        replace (3 * k + 3)%nat with (3 * S k)%nat by lia.
        replace (3 * k + 1 + 3)%nat with (3 * S k + 1)%nat by lia.
        replace (3 * k + 2 + 3)%nat with (3 * S k + 2)%nat by lia.
        exact Hout.
Qed.

Lemma RandomiseState_total rounds this st e k :
  (k < rounds)%nat ->
  outside_detector this
    (candidate this (draw e (3 * k + 2)) (draw e (3 * k + 3)) (draw e (3 * k + 4))) ->
  spectrum this <> [] ->
  exists st' e', RandomiseState M_PI rounds this st e = Some (st', e').
Proof.
  intros Hk Hout Hs.
  destruct (sample_position_returns this rounds (skip 2 e) k Hk) as (p & e1 & Hp).
  { rewrite !draw_skip.
    replace (3 * k + 1 + 2)%nat with (3 * k + 3)%nat by lia.
    replace (3 * k + 2 + 2)%nat with (3 * k + 4)%nat by lia.
    exact Hout. }
  destruct (spectrum this) as [|q v] eqn:Hv; [contradiction|].
  destruct (RandomiseState_returns rounds this st e p e1
              (nth (length (q :: v) - 1) (q :: v) q)) as (st' & Hst).
  - exact Hp.
  - rewrite Hv. apply back_nth. discriminate.
  - eauto.
Qed.

Lemma RandomiseState_weight rounds this st e st' e' :
  RandomiseState M_PI rounds this st e = Some (st', e') ->
  weight st' = weight st.
Proof.
  intros H. apply RandomiseState_inv in H.
  destruct H as (p & e1 & last & _ & _ & _ & ->). reflexivity.
Qed.

Lemma RandomiseState_direction rounds this st e st' e' :
  RandomiseState M_PI rounds this st e = Some (st', e') ->
  direction st' = isotropic_direction M_PI (draw e 0) (draw e 1).
Proof.
  intros H. apply RandomiseState_inv in H.
  destruct H as (p & e1 & last & _ & _ & _ & ->). reflexivity.
Qed.

Lemma RandomiseState_position rounds this st e st' e' :
  RandomiseState M_PI rounds this st e = Some (st', e') ->
  exists k, (k < rounds)%nat
    /\ internal_position st'
       = candidate this (draw e (3 * k + 2)) (draw e (3 * k + 3)) (draw e (3 * k + 4))
    /\ outside_detector this (internal_position st').
Proof.
  intros H. apply RandomiseState_inv in H.
  destruct H as (p & e1 & last & Hp & _ & _ & ->).
  apply sample_position_inv in Hp.
  destruct Hp as (k & Hk & _ & Hp & Hout).
  change (advance (advance e)) with (skip 2 e) in Hp.
  rewrite !draw_skip in Hp.
  replace (3 * k + 1 + 2)%nat with (3 * k + 3)%nat in Hp by lia.
  replace (3 * k + 2 + 2)%nat with (3 * k + 4)%nat in Hp by lia.
  assert (internal_position
            {| energy := scan_spectrum (spectrum this) (draw e1 0) (fst last);
               position := {| x := p.[0] / CLHEP.cm;
                              y := p.[1] / CLHEP.cm;
                              z := p.[2] / CLHEP.cm |};
               direction := isotropic_direction M_PI (draw e 0) (draw e 1);
               weight := weight st |} = p) as Hip.
  { destruct p as [[p0 p1] p2]. unfold internal_position, CLHEP.cm, CLHEP.mm.
    simpl. f_equal; [f_equal|]; field. }
  rewrite Hip. exists k. repeat split; assumption.
Qed.

Lemma RandomiseState_energy rounds this st e st' e' :
  RandomiseState M_PI rounds this st e = Some (st', e') ->
  exists n, drawn e' = S (n + drawn e) /\ flat e' = flat e
    /\ sample (spectrum this) (draw e n) = Some (energy st').
Proof.
  intros H. apply RandomiseState_inv in H.
  destruct H as (p & e1 & last & Hp & Hb & -> & ->).
  apply sample_position_inv in Hp.
  destruct Hp as (k & Hk & -> & _ & _).
  change (advance (advance e)) with (skip 2 e).
  rewrite skip_skip. exists (3 * S k + 2)%nat.
  unfold sample. rewrite Hb. simpl. auto.
Qed.

Lemma candidate_inside_air (table : spectrum_t) (u0 u1 u2 : R) :
  0 <= u0 < 1 -> 0 <= u1 < 1 -> 0 <= u2 < 1 ->
  inside_air (Singleton table) (candidate (Singleton table) u0 u1 u2).
Proof.
  intros H0 H1 H2.
  unfold inside_air, candidate, Singleton, new_DetectorConstruction.
  unfold CLHEP.km, CLHEP.m, CLHEP.mm. simpl.
  repeat split; apply Rabs_le; lra.
Qed.

Lemma isotropic_direction_unit (u0 u1 : R) :
  0 <= u0 <= 1 ->
  let d := isotropic_direction M_PI u0 u1 in
  x d * x d + y d * y d + z d * z d = 1.
Proof.
  intros Hu. simpl.
  set (c := 2.0 * u0 - 1.0).
  assert (0 <= 1.0 - c * c) as Hc.
  { unfold c. nra. }
  pose proof (sqrt_sqrt _ Hc) as Hs.
  pose proof (sin2_cos2 (2.0 * M_PI * u1)) as Hsc.
  unfold Rsqr in Hsc.
  set (s := sqrt (1.0 - c * c)) in *.
  set (sn := sin (2.0 * M_PI * u1)) in *.
  set (cs := cos (2.0 * M_PI * u1)) in *.
  replace (s * cs * (s * cs) + s * sn * (s * sn) + c * c)
    with (s * s * (sn * sn + cs * cs) + c * c) by ring.
  rewrite Hsc, Hs. lra.
Qed.

End Forward.

(** ** The backward sampler *)

Section Backward.

Variable M_PI : R.

(** The weight before the energy branch: [2 * c[2] / cm2], then [w *= M_PI]. *)
Lemma face_areas_total (this : DetectorConstruction) :
  2 * (snd (face_areas this)).[2] / CLHEP.cm2 * M_PI
  = 2 * totalArea this * M_PI.
Proof.
  unfold face_areas, totalArea. simpl.
  destruct (detectorSize this) as [[d0 d1] d2]. simpl.
  unfold CLHEP.cm2, CLHEP.cm, CLHEP.mm.
  replace 0.0 with 0 by lra. field.
Qed.

Lemma RandomiseBackward_inv alpha this st e source_energy st' e' :
  RandomiseBackward M_PI alpha this st e = Some (source_energy, st', e') ->
  exists last,
    back (spectrum this) = Some last
    /\ source_energy = scan_spectrum (spectrum this) (draw e 5) (fst last)
    /\ let w := 2 * (snd (face_areas this)).[2] / CLHEP.cm2 * M_PI in
       if Rltb (draw e 6) alpha
       then energy st' = source_energy
            /\ weight st' = w / alpha
            /\ e' = skip 7 e
       else let lnr := ln (source_energy / 1e-2) in
            energy st' = 1e-2 * exp (lnr * draw e 7)
            /\ weight st' = w * (energy st' * lnr / (1.0 - alpha))
            /\ e' = skip 8 e.
Proof.
  unfold RandomiseBackward, bind, G4UniformRand, lift, ret.
  cbn [flat drawn]. intros H.
  destruct (back (spectrum this)) as [last|] eqn:Hb; [|discriminate].
  exists last. split; [reflexivity|].
  cbn [flat drawn] in H. cbv zeta.
  change (draw e 6) with (flat e (S (S (S (S (S (S (drawn e)))))))).
  destruct (Rltb (flat e (S (S (S (S (S (S (drawn e)))))))) alpha).
  - injection H as Hs Hst He. subst st' e' source_energy.
    repeat split.
  - cbn [flat drawn] in H.
    injection H as Hs Hst He. subst st' e' source_energy.
    repeat split.
Qed.

Lemma RandomiseBackward_total alpha this st e :
  spectrum this <> [] ->
  exists source_energy st' e',
    RandomiseBackward M_PI alpha this st e = Some (source_energy, st', e').
Proof.
  intros Hs.
  unfold RandomiseBackward, bind, G4UniformRand, lift, ret.
  cbn [flat drawn].
  destruct (spectrum this) as [|q v] eqn:Hv; [contradiction|].
  rewrite (back_nth _ q) by discriminate.
  cbn [flat drawn].
  match goal with |- context [Rltb ?a alpha] => destruct (Rltb a alpha) end;
    cbn [flat drawn]; eauto.
Qed.

End Backward.

(** ** Runs on the example inputs *)

Lemma uniform_steady (u : R) : 0 <= u < 1 -> uniform (steady u).
Proof. intros Hu n. exact Hu. Qed.

Lemma spectrum_three_lines :
  spectrum (Singleton three_lines) = [(0.5, 0.25); (1.5, 0.5); (2.5, 1.0)].
Proof. apply normalize_112. Qed.

Lemma forward_example_run (st : goupil_state) :
  exists st' e',
    RandomiseState M_PI_fallback 1 (Singleton three_lines) st (steady 0.25)
    = Some (st', e').
Proof.
  apply (RandomiseState_total M_PI_fallback 1 _ st _ 0%nat).
  - lia.
  - unfold outside_detector, candidate, draw, steady, Singleton,
      new_DetectorConstruction, CLHEP.km, CLHEP.m, CLHEP.mm.
    simpl. left. rewrite Rabs_pos_eq; lra.
  - rewrite spectrum_three_lines. discriminate.
Qed.

Lemma backward_example_run (alpha : R) (st : goupil_state) :
  exists source_energy st' e',
    RandomiseBackward M_PI_fallback alpha (Singleton three_lines) st (steady 0.25)
    = Some (source_energy, st', e').
Proof.
  apply RandomiseBackward_total.
  rewrite spectrum_three_lines. discriminate.
Qed.

(** ** The forward sampler: claims *)

(** C1 as the code has it.  [RandomiseState] writes the direction, the
    position and the energy of the state and never assigns its weight:
    after the call the weight is the one the caller's buffer held
    before, 1.0 exactly when the caller had put 1.0 there. *)
Theorem forward_weight_untouched (M_PI : R) (rounds : nat)
    (this : DetectorConstruction) (st : goupil_state) (e : HepRandomEngine)
    (st' : goupil_state) (e' : HepRandomEngine) :
  RandomiseState M_PI rounds this st e = Some (st', e') ->
  weight st' = weight st.
Proof. apply RandomiseState_weight. Qed.

Lemma forward_weight_untouched_witness :
  exists st' e',
    RandomiseState M_PI_fallback 1 (Singleton three_lines)
      (set_weight 1.0 zeroed) (steady 0.25) = Some (st', e')
    /\ weight st' = 1.0.
Proof.
  destruct (forward_example_run (set_weight 1.0 zeroed)) as (st' & e' & H).
  exists st', e'. split; [exact H|].
  apply (forward_weight_untouched _ _ _ _ _ _ _ H).
Defined.

(** C1 as stated fails: on a zero-filled buffer the call returns a state
    whose weight is 0, not 1.0. *)
Lemma forward_weight_not_one :
  exists st' e',
    RandomiseState M_PI_fallback 1 (Singleton three_lines) zeroed (steady 0.25)
    = Some (st', e')
    /\ weight st' <> 1.0.
Proof.
  destruct (forward_example_run zeroed) as (st' & e' & H).
  exists st', e'. split; [exact H|].
  rewrite (RandomiseState_weight _ _ _ _ _ _ _ H). simpl. lra.
Qed.

(** C5.  Every position the forward sampler produces, taken back to
    internal units, lies within half the air extent of the centre of the
    air box (half the ground thickness above the origin) on each axis,
    and beyond half the detector extent on at least one axis; it is the
    candidate of the round at which the rejection loop stopped. *)
Theorem forward_position_in_air_outside_detector (M_PI : R) (rounds : nat)
    (table : spectrum_t) (st : goupil_state) (e : HepRandomEngine)
    (st' : goupil_state) (e' : HepRandomEngine) :
  uniform e ->
  RandomiseState M_PI rounds (Singleton table) st e = Some (st', e') ->
  inside_air (Singleton table) (internal_position st')
  /\ outside_detector (Singleton table) (internal_position st')
  /\ exists k, (k < rounds)%nat
       /\ internal_position st'
          = candidate (Singleton table)
              (draw e (3 * k + 2)) (draw e (3 * k + 3)) (draw e (3 * k + 4)).
Proof.
  intros Hu H.
  destruct (RandomiseState_position _ _ _ _ _ _ _ H) as (k & Hk & Hp & Hout).
  split; [|split; [exact Hout | exists k; split; assumption]].
  rewrite Hp. apply candidate_inside_air; apply Hu.
Qed.

Lemma forward_position_in_air_outside_detector_witness :
  exists st' e',
    RandomiseState M_PI_fallback 1 (Singleton three_lines) zeroed (steady 0.25)
    = Some (st', e')
    /\ inside_air (Singleton three_lines) (internal_position st')
    /\ outside_detector (Singleton three_lines) (internal_position st').
Proof.
  destruct (forward_example_run zeroed) as (st' & e' & H).
  exists st', e'. split; [exact H|].
  destruct (forward_position_in_air_outside_detector _ _ _ _ _ _ _
              (uniform_steady 0.25 ltac:(lra)) H) as (Hin & Hout & _).
  split; assumption.
Defined.

(** C6.  With the two numbers drawn first, [cosTheta = 2 u0 - 1] lies in
    [-1,1] and [phi = 2 M_PI u1] in [0, 2 M_PI), the direction produced is
    [(sinTheta cosPhi, sinTheta sinPhi, cosTheta)] with
    [sinTheta = sqrt (1 - cosTheta^2)], and its squared components sum
    to 1 in real arithmetic. *)
Theorem forward_direction_unit (M_PI : R) (rounds : nat)
    (this : DetectorConstruction) (st : goupil_state) (e : HepRandomEngine)
    (st' : goupil_state) (e' : HepRandomEngine) :
  uniform e ->
  RandomiseState M_PI rounds this st e = Some (st', e') ->
  let cosTheta := 2.0 * draw e 0 - 1.0 in
  let sinTheta := sqrt (1.0 - cosTheta * cosTheta) in
  let phi := 2.0 * M_PI * draw e 1 in
  -1 <= cosTheta <= 1
  /\ (0 < M_PI -> 0 <= phi < 2.0 * M_PI)
  /\ direction st'
     = {| x := sinTheta * cos phi; y := sinTheta * sin phi; z := cosTheta |}
  /\ x (direction st') * x (direction st')
     + y (direction st') * y (direction st')
     + z (direction st') * z (direction st') = 1.
Proof.
  intros Hu H. cbv zeta.
  pose proof (Hu (0 + drawn e)%nat) as H0. fold (draw e 0) in H0.
  pose proof (Hu (1 + drawn e)%nat) as H1. fold (draw e 1) in H1.
  split; [lra|]. split; [|split].
  - intros Hpi. nra.
  - apply (RandomiseState_direction _ _ _ _ _ _ _ H).
  - rewrite (RandomiseState_direction _ _ _ _ _ _ _ H).
    apply isotropic_direction_unit. lra.
Qed.

Lemma forward_direction_unit_witness :
  exists st' e',
    RandomiseState M_PI_fallback 1 (Singleton three_lines) zeroed (steady 0.25)
    = Some (st', e')
    /\ x (direction st') * x (direction st')
       + y (direction st') * y (direction st')
       + z (direction st') * z (direction st') = 1.
Proof.
  destruct (forward_example_run zeroed) as (st' & e' & H).
  exists st', e'. split; [exact H|].
  apply (forward_direction_unit _ _ _ _ _ _ _
           (uniform_steady 0.25 ltac:(lra)) H).
Defined.

(** ** The energy scan: claim *)

Lemma sample_some_nonempty (v : spectrum_t) (last : R * R) :
  back v = Some last -> (0 < length v)%nat.
Proof. destruct v; simpl; [discriminate | lia]. Qed.

Lemma sample_zero_constructed (table : spectrum_t) :
  Forall (fun p => 0 <= snd p) table ->
  0 < Rsum (intensities table) ->
  sample (spectrum (new_DetectorConstruction table)) 0.0
  = Some (nth 0 (energies table) 0).
Proof.
  intros Hnn Hpos. simpl.
  assert (0 < length table)%nat as Hlen.
  { destruct table; simpl in *; [lra | lia]. }
  assert (energies (normalize_intensities table) = energies table) as He.
  { apply accumulate_energies. }
  rewrite <- He. apply sample_first.
  - unfold normalize_intensities. rewrite accumulate_length. exact Hlen.
  - rewrite normalize_nth by exact Hlen.
    pose proof (Rsum_firstn_nonneg (intensities table) 1
                  (intensities_nonneg table Hnn)) as H1.
    unfold running_sum.
    apply Rmult_le_reg_r with (r := Rsum (intensities table)); [exact Hpos|].
    unfold Rdiv. rewrite Rmult_assoc, Rinv_l by lra. lra.
  - intros j Hj. lia.
Qed.

Lemma sample_example (e1 e2 e3 : R) :
  sample [(e1, 0.25); (e2, 0.5); (e3, 1.0)] 0.3 = Some e2.
Proof.
  unfold sample. simpl.
  rewrite (proj2 (Rleb_false 0.3 0.25)) by lra.
  rewrite (proj2 (Rleb_true 0.3 0.5)) by lra.
  reflexivity.
Qed.

Lemma binary64_sample_example (e1 e2 e3 : float) :
  Binary64.scan_spectrum
    [(e1, 0.25%float); (e2, 0.5%float); (e3, 1.0%float)] 0.3%float e3 = e2.
Proof. reflexivity. Qed.

(** Rounding.  In binary64 arithmetic the last cumulative weight need
    not be 1.0: seven equal intensities end at 1 - 2^-52, the number
    1 - 2^-53 then exceeds every weight and the scan keeps the fallback
    it was given.  This is the overshoot the fallback to the last
    entry is there for. *)
Lemma binary64_overshoot :
  let t := Binary64.normalize_intensities
             [(1%float, 1%float); (2%float, 1%float); (3%float, 1%float);
              (4%float, 1%float); (5%float, 1%float); (6%float, 1%float);
              (7%float, 1%float)] in
  back (map snd t) = Some 0.99999999999999978%float
  /\ Binary64.scan_spectrum t 0.99999999999999989%float 99%float = 99%float.
Proof. split; reflexivity. Qed.

(** C4.  For every number [u] the scan returns the energy of the first
    entry whose cumulative weight is at least [u]; when [u] exceeds every
    cumulative weight it returns the energy of the last entry, a result
    and not an error; [sample(0.0)] is the energy of the first entry of
    a table with non-negative weights, thus of every table the
    constructor builds from non-negative intensities with a positive
    sum, and [sample(0.3)] on the weights
    (0.25, 0.5, 1.0) is the energy of the second entry, also in binary64
    arithmetic.  The energy of [RandomiseState] and the source energy
    of [RandomiseBackward] are this [sample] at a number drawn. *)
Theorem energy_scan_first_entry_reaching (v : spectrum_t) (u : R)
    (last : R * R) :
  back v = Some last ->
  (forall i, (i < length v)%nat ->
     u <= nth i (intensities v) 0 ->
     (forall j, (j < i)%nat -> nth j (intensities v) 0 < u) ->
     sample v u = Some (nth i (energies v) 0))
  /\ ((forall p, In p v -> snd p < u) -> sample v u = Some (fst last))
  /\ (0.0 <= nth 0 (intensities v) 0 ->
      sample v 0.0 = Some (nth 0 (energies v) 0))
  /\ (forall table,
        Forall (fun p => 0 <= snd p) table ->
        0 < Rsum (intensities table) ->
        sample (spectrum (new_DetectorConstruction table)) 0.0
        = Some (nth 0 (energies table) 0))
  /\ (forall e1 e2 e3,
        sample [(e1, 0.25); (e2, 0.5); (e3, 1.0)] 0.3 = Some e2)
  /\ (forall e1 e2 e3,
        Binary64.scan_spectrum
          [(e1, 0.25%float); (e2, 0.5%float); (e3, 1.0%float)] 0.3%float e3
        = e2)
  /\ (forall M_PI rounds this st e st' e',
        spectrum this = v ->
        RandomiseState M_PI rounds this st e = Some (st', e') ->
        exists n, sample v (draw e n) = Some (energy st'))
  /\ (forall M_PI alpha this st e source_energy st' e',
        spectrum this = v ->
        RandomiseBackward M_PI alpha this st e = Some (source_energy, st', e') ->
        sample v (draw e 5) = Some source_energy).
Proof.
  intros Hb. repeat apply conj.
  - intros i Hi Hle Hlt. apply sample_first; assumption.
  - intros Hall. unfold sample. rewrite Hb.
    rewrite scan_overshoot by assumption. reflexivity.
  - intros H0. apply sample_first.
    + apply (sample_some_nonempty v last Hb).
    + exact H0.
    + intros j Hj. lia.
  - apply sample_zero_constructed.
  - apply sample_example.
  - apply binary64_sample_example.
  - intros M_PI rounds this st e st' e' Hv H.
    destruct (RandomiseState_energy _ _ _ _ _ _ _ H) as (n & _ & _ & Hn).
    exists n. rewrite <- Hv. exact Hn.
  - intros M_PI alpha this st e source_energy st' e' Hv H.
    destruct (RandomiseBackward_inv _ _ _ _ _ _ _ _ H) as (l & Hl & Hs & _).
    unfold sample. rewrite <- Hv, Hl, Hs. reflexivity.
Qed.

Lemma energy_scan_first_entry_reaching_witness :
  sample [(0.5, 0.25); (1.5, 0.5); (2.5, 1.0)] 0.3 = Some 1.5
  /\ sample [(0.5, 0.25); (1.5, 0.5); (2.5, 1.0)] 1.5 = Some 2.5.
Proof.
  split.
  - destruct (energy_scan_first_entry_reaching
                [(0.5, 0.25); (1.5, 0.5); (2.5, 1.0)] 0.3 (2.5, 1.0) eq_refl)
      as (Hfirst & _).
    apply (Hfirst 1%nat); simpl.
    + lia.
    + lra.
    + intros j Hj. assert (j = 0%nat) as -> by lia. simpl. lra.
  - destruct (energy_scan_first_entry_reaching
                [(0.5, 0.25); (1.5, 0.5); (2.5, 1.0)] 1.5 (2.5, 1.0) eq_refl)
      as (_ & Hover & _).
    apply Hover. simpl.
    intros p [<-|[<-|[<-|[]]]]; simpl; lra.
Defined.

(** ** The backward sampler: claims *)

Lemma totalArea_Singleton (table : spectrum_t) :
  totalArea (Singleton table) = 8000000.
Proof.
  unfold totalArea, Singleton, new_DetectorConstruction,
    CLHEP.cm2, CLHEP.cm, CLHEP.m, CLHEP.mm.
  simpl. lra.
Qed.

Lemma auxiliary_energy_bounds (source_energy u : R) :
  1e-2 < source_energy -> 0 <= u < 1 ->
  1e-2 <= 1e-2 * exp (ln (source_energy / 1e-2) * u) < source_energy.
Proof.
  intros Hs Hu.
  assert (1 < source_energy / 1e-2) as Hr.
  { apply Rmult_lt_reg_r with (r := 1e-2); [lra|]. field_simplify. lra. }
  assert (0 < ln (source_energy / 1e-2)) as Hln.
  { rewrite <- ln_1. apply ln_increasing; lra. }
  set (lnr := ln (source_energy / 1e-2)) in *.
  assert (1 <= exp (lnr * u)) as Hlo.
  { rewrite <- exp_0. destruct (Req_dec (lnr * u) 0) as [->|Hne].
    - lra.
    - left. apply exp_increasing. nra. }
  assert (exp (lnr * u) < source_energy / 1e-2) as Hhi.
  { rewrite <- (exp_ln (source_energy / 1e-2)) by lra. fold lnr.
    apply exp_increasing. nra. }
  split; [lra|].
  apply Rmult_lt_compat_l with (r := 1e-2) in Hhi; [|lra].
  replace (1e-2 * (source_energy / 1e-2)) with source_energy in Hhi by (field; lra).
  exact Hhi.
Qed.

(** C2.  With [alpha = 1] every number drawn is below [alpha], so the
    direct branch is taken: the energy produced is the source energy
    returned and the weight is [2 * totalArea * M_PI], where [totalArea]
    is the sum dx*dy + dy*dz + dz*dx of the detector extents in cm^2
    (8e6 cm^2 for the detector the constructor builds). *)
Theorem backward_alpha_one (M_PI : R) (this : DetectorConstruction)
    (st : goupil_state) (e : HepRandomEngine)
    (source_energy : R) (st' : goupil_state) (e' : HepRandomEngine) :
  uniform e ->
  RandomiseBackward M_PI 1 this st e = Some (source_energy, st', e') ->
  energy st' = source_energy
  /\ weight st' = 2 * totalArea this * M_PI
  /\ (forall table, this = Singleton table ->
        weight st' = 2 * 8000000 * M_PI).
Proof.
  intros Hu H.
  destruct (RandomiseBackward_inv _ _ _ _ _ _ _ _ H) as (last & _ & _ & Hbr).
  cbv zeta in Hbr.
  pose proof (Hu (6 + drawn e)%nat) as H6. fold (draw e 6) in H6.
  rewrite (proj2 (Rltb_true (draw e 6) 1)) in Hbr by lra.
  destruct Hbr as (He & Hw & _).
  rewrite face_areas_total in Hw.
  assert (weight st' = 2 * totalArea this * M_PI) as Hw'.
  { rewrite Hw. field. }
  repeat split; auto.
  intros table ->. rewrite Hw', totalArea_Singleton. reflexivity.
Qed.

Lemma backward_alpha_one_witness :
  exists source_energy st' e',
    RandomiseBackward M_PI_fallback 1 (Singleton three_lines) zeroed (steady 0.25)
    = Some (source_energy, st', e')
    /\ energy st' = source_energy
    /\ weight st' = 2 * 8000000 * M_PI_fallback.
Proof.
  destruct (backward_example_run 1 zeroed) as (s & st' & e' & H).
  exists s, st', e'. split; [exact H|].
  destruct (backward_alpha_one _ _ _ _ _ _ _
              (uniform_steady 0.25 ltac:(lra)) H) as (He & _ & Hw).
  split; [exact He | exact (Hw three_lines eq_refl)].
Defined.

(** C8 as the code has it.  [RandomiseBackward] does not look at the
    range of [alpha]: for every [alpha], inside or outside [0,1], the
    call on a non-empty spectrum returns a state.  For [alpha = 0] no
    number drawn is below [alpha], so the direct branch is never taken:
    the energy is [0.01 * exp (ln (sourceEnergy / 0.01) * u)] for one
    more number [u] drawn, and the weight is the geometric factor times
    [energy * ln (sourceEnergy / 0.01) / (1 - 0)]. *)
Theorem backward_alpha_unchecked (M_PI alpha : R)
    (this : DetectorConstruction) (st : goupil_state) (e : HepRandomEngine) :
  spectrum this <> [] ->
  uniform e ->
  (exists source_energy st' e',
     RandomiseBackward M_PI alpha this st e = Some (source_energy, st', e'))
  /\ (forall source_energy st' e',
        RandomiseBackward M_PI 0 this st e = Some (source_energy, st', e') ->
        let lnr := ln (source_energy / 1e-2) in
        energy st' = 1e-2 * exp (lnr * draw e 7)
        /\ weight st'
           = 2 * totalArea this * M_PI * (energy st' * lnr / (1.0 - 0))
        /\ e' = skip 8 e).
Proof.
  intros Hs Hu. split.
  - apply RandomiseBackward_total. exact Hs.
  - intros source_energy st' e' H.
    destruct (RandomiseBackward_inv _ _ _ _ _ _ _ _ H) as (last & _ & _ & Hbr).
    cbv zeta in Hbr.
    pose proof (Hu (6 + drawn e)%nat) as H6. fold (draw e 6) in H6.
    rewrite (proj2 (Rltb_false (draw e 6) 0)) in Hbr by lra.
    destruct Hbr as (He & Hw & He').
    rewrite face_areas_total in Hw.
    cbv zeta. repeat split; assumption.
Qed.

Lemma backward_alpha_unchecked_witness :
  exists source_energy st' e',
    RandomiseBackward M_PI_fallback (-3) (Singleton three_lines) zeroed
      (steady 0.25) = Some (source_energy, st', e').
Proof.
  assert (spectrum (Singleton three_lines) <> []) as Hs.
  { rewrite spectrum_three_lines. discriminate. }
  exact (proj1 (backward_alpha_unchecked M_PI_fallback (-3)
                  (Singleton three_lines) zeroed (steady 0.25) Hs
                  (uniform_steady 0.25 ltac:(lra)))).
Defined.

(** C8 as stated fails: with [alpha = 2], outside [0,1], the call does
    not fail; it returns a state whose weight is the geometric factor
    divided by 2. *)
Lemma backward_alpha_two_returns :
  exists source_energy st' e',
    RandomiseBackward M_PI_fallback 2 (Singleton three_lines) zeroed (steady 0.25)
    = Some (source_energy, st', e')
    /\ weight st' = 2 * 8000000 * M_PI_fallback / 2.
Proof.
  destruct (backward_example_run 2 zeroed) as (s & st' & e' & H).
  exists s, st', e'. split; [exact H|].
  destruct (RandomiseBackward_inv _ _ _ _ _ _ _ _ H) as (last & _ & _ & Hbr).
  cbv zeta in Hbr.
  rewrite (proj2 (Rltb_true (draw (steady 0.25) 6) 2)) in Hbr
    by (unfold draw, steady; simpl; lra).
  destruct Hbr as (_ & Hw & _).
  rewrite face_areas_total, totalArea_Singleton in Hw. exact Hw.
Qed.






(** ** The source volume: claim *)

(** C9.  [g4randomize_source_volume] returns the volume of the air box
    minus the volume of the detector box, divided by [cm3]: with the
    sizes of the constructor (air 2 km x 2 km x 1 km, detector
    20 m x 20 m x 10 m) this is 4e15 - 4e9 = 3.999996e15 cm^3, whatever
    the spectrum table; the binary64 evaluation gives the same number. *)
Theorem source_volume_value (table : spectrum_t) :
  g4randomize_source_volume table
  = ((airSize (Singleton table)).[0] * (airSize (Singleton table)).[1]
       * (airSize (Singleton table)).[2]
     - (detectorSize (Singleton table)).[0] * (detectorSize (Singleton table)).[1]
       * (detectorSize (Singleton table)).[2]) / CLHEP.cm3
  /\ airSize (Singleton table)
     = (2.0 * CLHEP.km, 2.0 * CLHEP.km, 1 * CLHEP.km)
  /\ detectorSize (Singleton table)
     = (20.0 * CLHEP.m, 20.0 * CLHEP.m, 10.0 * CLHEP.m)
  /\ g4randomize_source_volume table = 4e15 - 4e9
  /\ g4randomize_source_volume table = 3.999996e15
  /\ Binary64.g4randomize_source_volume = 3.999996e15%float.
Proof.
  repeat apply conj.
  - reflexivity.
  - reflexivity.
  - reflexivity.
  - unfold g4randomize_source_volume, Singleton, new_DetectorConstruction,
      CLHEP.cm3, CLHEP.cm, CLHEP.km, CLHEP.m, CLHEP.mm. simpl. lra.
  - unfold g4randomize_source_volume, Singleton, new_DetectorConstruction,
      CLHEP.cm3, CLHEP.cm, CLHEP.km, CLHEP.m, CLHEP.mm. simpl. lra.
  - reflexivity.
Qed.

(** ** The table of zero intensities: claim *)

(** C7 as the code has it.  The constructor does not check the sum of
    the intensities.  On a table whose intensities are all zero the
    normalisation runs to its end in binary64 arithmetic: the energies
    are kept, [1.0 / 0.0] is the infinity, every cumulative weight is
    [0 * infinity], a NaN, and no error is reported; the energy scan on
    the table built then fails every comparison and falls back. *)
Theorem zero_table_builds_nan_weights (v : Binary64.spectrum_t) :
  Forall (fun p => snd p = 0%float) v ->
  map fst (Binary64.normalize_intensities v) = map fst v
  /\ Forall (fun p => snd p = nan) (Binary64.normalize_intensities v)
  /\ forall u fallback,
       Binary64.scan_spectrum (Binary64.normalize_intensities v) u fallback
       = fallback.
Proof.
  intros Hv. split; [|split].
  - apply Binary64Facts.b64_normalize_energies.
  - apply Binary64Facts.b64_normalize_zero_nan. exact Hv.
  - intros u fallback. apply Binary64Facts.b64_scan_nan.
    apply Binary64Facts.b64_normalize_zero_nan. exact Hv.
Qed.

Lemma zero_table_builds_nan_weights_witness :
  map fst (Binary64.normalize_intensities [(0.5%float, 0%float); (1.5%float, 0%float)])
  = [0.5%float; 1.5%float]
  /\ Binary64.scan_spectrum
       (Binary64.normalize_intensities [(0.5%float, 0%float); (1.5%float, 0%float)])
       0.25%float 1.5%float = 1.5%float.
Proof.
  assert (Forall (fun p : float * float => snd p = 0%float)
            [(0.5%float, 0%float); (1.5%float, 0%float)]) as Hv.
  { repeat constructor. }
  destruct (zero_table_builds_nan_weights _ Hv) as (He & _ & Hs).
  split; [exact He | apply Hs].
Defined.

(** C7 as stated fails: the table code returns on a table of two zero
    intensities, and the weights it returns are NaN. *)
Lemma zero_table_not_reported :
  Binary64.normalize_intensities [(0.5%float, 0%float); (1.5%float, 0%float)]
  = [(0.5%float, nan); (1.5%float, nan)].
Proof. reflexivity. Qed.

(** * Further properties of the code *)

(** ** The spectrum table *)

(** X2.  Selection by the cumulative weights.  On a table whose
    stored weights are non-decreasing, whatever arithmetic produced
    them, a number [u] above the weight of entry [k-1] (any number when
    [k = 0]) and not above the weight of entry [k] selects the energy
    of entry [k]: the scan only compares [u] with the stored weights. *)
Theorem sample_selects_by_interval (v : spectrum_t) (k : nat) (u : R) :
  nondecreasing (intensities v) ->
  (k < length v)%nat ->
  (forall j, k = S j -> nth j (intensities v) 0 < u) ->
  u <= nth k (intensities v) 0 ->
  sample v u = Some (nth k (energies v) 0).
Proof.
  intros Hmono Hk Hlo Hhi.
  apply sample_first; [exact Hk | exact Hhi |].
  intros j Hj. destruct k as [|k']; [lia|].
  eapply Rle_lt_trans; [|exact (Hlo k' eq_refl)].
  apply Hmono. unfold intensities. rewrite length_map. lia.
Qed.

Lemma sample_selects_by_interval_witness :
  sample [(0.5, 0.25); (1.5, 0.5); (2.5, 1.0)] 0.75 = Some 2.5.
Proof.
  apply (sample_selects_by_interval [(0.5, 0.25); (1.5, 0.5); (2.5, 1.0)] 2 0.75).
  - intros i j Hij. simpl in Hij.
    destruct i as [|[|[|i]]]; destruct j as [|[|[|j]]]; simpl; try lia; lra.
  - simpl. lia.
  - intros j Hj. injection Hj as <-. simpl. lra.
  - simpl. lra.
Defined.

Lemma scan_in_table (v : spectrum_t) (u fallback : R) :
  scan_spectrum v u fallback = fallback
  \/ In (scan_spectrum v u fallback) (energies v).
Proof.
  induction v as [|p v IH]; simpl.
  - left. reflexivity.
  - destruct (Rleb u (snd p)).
    + right. left. reflexivity.
    + destruct IH as [IH|IH]; [left | right; right]; exact IH.
Qed.

Lemma back_in {A : Type} (v : list A) (a : A) : back v = Some a -> In a v.
Proof.
  induction v as [|b v IH]; intros H.
  - discriminate.
  - destruct v as [|c v].
    + injection H as ->. left. reflexivity.
    + right. apply IH. exact H.
Qed.

Lemma sample_in_table (v : spectrum_t) (u en : R) :
  sample v u = Some en -> In en (energies v).
Proof.
  unfold sample. destruct (back v) as [last|] eqn:Hb; [|discriminate].
  intros H. injection H as <-.
  destruct (scan_in_table v u (fst last)) as [-> | Hin]; [|exact Hin].
  unfold energies. apply in_map. apply back_in. exact Hb.
Qed.

(** X3.  Whatever the numbers drawn, also on overshoot, the energy of
    the forward sampler and the source energy of the backward sampler
    are energies of the spectrum table; on the direct branch of the
    backward sampler so is the energy of the state. *)
Theorem sampled_energies_from_table (M_PI alpha : R) (rounds : nat)
    (this : DetectorConstruction) (st : goupil_state) (e : HepRandomEngine) :
  (forall st' e',
     RandomiseState M_PI rounds this st e = Some (st', e') ->
     In (energy st') (energies (spectrum this)))
  /\ (forall source_energy st' e',
        RandomiseBackward M_PI alpha this st e = Some (source_energy, st', e') ->
        In source_energy (energies (spectrum this))
        /\ (draw e 6 < alpha -> In (energy st') (energies (spectrum this)))).
Proof.
  split.
  - intros st' e' H.
    destruct (RandomiseState_energy _ _ _ _ _ _ _ H) as (n & _ & _ & Hn).
    apply (sample_in_table _ _ _ Hn).
  - intros source_energy st' e' H.
    destruct (RandomiseBackward_inv _ _ _ _ _ _ _ _ H) as (last & Hb & Hs & Hbr).
    assert (In source_energy (energies (spectrum this))) as Hin.
    { apply (sample_in_table _ (draw e 5)). unfold sample. rewrite Hb, Hs.
      reflexivity. }
    split; [exact Hin|].
    intros Hlt. cbv zeta in Hbr.
    rewrite (proj2 (Rltb_true _ _) Hlt) in Hbr.
    destruct Hbr as (-> & _). exact Hin.
Qed.

(** ** The forward sampler *)

Lemma sample_position_first (this : DetectorConstruction) (rounds : nat)
    (e : HepRandomEngine) (p : double3) (e' : HepRandomEngine) :
  sample_position this (0.5 * (groundSize this).[2]) rounds e = Some (p, e') ->
  exists k, (k < rounds)%nat
    /\ e' = skip (3 * S k) e
    /\ p = candidate this (draw e (3 * k)) (draw e (3 * k + 1)) (draw e (3 * k + 2))
    /\ outside_detector this p
    /\ forall j, (j < k)%nat ->
         ~ outside_detector this
             (candidate this (draw e (3 * j)) (draw e (3 * j + 1))
                (draw e (3 * j + 2))).
Proof.
  revert e. induction rounds as [|rounds IH]; intros e H.
  - discriminate.
  - rewrite sample_position_step in H. cbv zeta in H.
    match type of H with (if ?b then _ else _) = _ => destruct b eqn:Hb end.
    + injection H as Hp He. exists 0%nat. subst p e'.
      split; [lia|]. split; [reflexivity|]. split; [reflexivity|].
      split; [apply accept_outside; exact Hb | intros j Hj; lia].
    + destruct (IH _ H) as (k & Hk & He & Hp & Hout & Hrej).
      exists (S k). split; [lia|]. split; [|split; [|split]].
      * rewrite He, skip_skip. f_equal. lia.
      * rewrite Hp, !draw_skip.
        replace (3 * k + 3)%nat with (3 * S k)%nat by lia.
        replace (3 * k + 1 + 3)%nat with (3 * S k + 1)%nat by lia.
        replace (3 * k + 2 + 3)%nat with (3 * S k + 2)%nat by lia.
        reflexivity.
      * exact Hout.
      * intros [|j] Hj.
        -- intros Hacc.
           change (outside_detector this
                     (candidate this (draw e 0) (draw e 1) (draw e 2))) in Hacc.
           apply accept_outside in Hacc. rewrite Hacc in Hb. discriminate.
        -- specialize (Hrej j ltac:(lia)). rewrite !draw_skip in Hrej.
           replace (3 * j + 3)%nat with (3 * S j)%nat in Hrej by lia.
           replace (3 * j + 1 + 3)%nat with (3 * S j + 1)%nat in Hrej by lia.
           replace (3 * j + 2 + 3)%nat with (3 * S j + 2)%nat in Hrej by lia.
           exact Hrej.
Qed.

Lemma internal_position_div (st : goupil_state) (p : double3) :
  position st = {| x := p.[0] / CLHEP.cm; y := p.[1] / CLHEP.cm;
                   z := p.[2] / CLHEP.cm |} ->
  internal_position st = p.
Proof.
  intros H. destruct p as [[p0 p1] p2].
  unfold internal_position. rewrite H. unfold CLHEP.cm, CLHEP.mm. simpl.
  f_equal; [f_equal|]; field.
Qed.

(** X4.  The rejection loop of the forward sampler returns the first
    candidate that is outside the detector: the position produced is the
    candidate of some round [k], every candidate of the earlier rounds
    of the call was inside the detector box, and the call has drawn
    exactly [3 k + 6] numbers (two for the direction, three per round,
    one for the energy). *)
Theorem forward_returns_first_accepted (M_PI : R) (rounds : nat)
    (this : DetectorConstruction) (st : goupil_state) (e : HepRandomEngine)
    (st' : goupil_state) (e' : HepRandomEngine) :
  RandomiseState M_PI rounds this st e = Some (st', e') ->
  exists k, (k < rounds)%nat
    /\ internal_position st'
       = candidate this (draw e (3 * k + 2)) (draw e (3 * k + 3))
           (draw e (3 * k + 4))
    /\ outside_detector this (internal_position st')
    /\ (forall j, (j < k)%nat ->
          ~ outside_detector this
              (candidate this (draw e (3 * j + 2)) (draw e (3 * j + 3))
                 (draw e (3 * j + 4))))
    /\ e' = skip (3 * k + 6) e.
Proof.
  intros H. apply RandomiseState_inv in H.
  destruct H as (p & e1 & last & Hp & _ & He & Hst).
  apply sample_position_first in Hp.
  destruct Hp as (k & Hk & He1 & Hp & Hout & Hrej).
  change (advance (advance e)) with (skip 2 e) in *.
  rewrite !draw_skip in Hp.
  replace (3 * k + 1 + 2)%nat with (3 * k + 3)%nat in Hp by lia.
  replace (3 * k + 2 + 2)%nat with (3 * k + 4)%nat in Hp by lia.
  assert (internal_position st' = p) as Hip.
  { apply internal_position_div. rewrite Hst. reflexivity. }
  exists k. rewrite Hip. split; [exact Hk|]. split; [exact Hp|].
  split; [exact Hout|]. split.
  - intros j Hj. specialize (Hrej j Hj). rewrite !draw_skip in Hrej.
    replace (3 * j + 1 + 2)%nat with (3 * j + 3)%nat in Hrej by lia.
    replace (3 * j + 2 + 2)%nat with (3 * j + 4)%nat in Hrej by lia.
    exact Hrej.
  - rewrite He, He1. change (advance (skip (3 * S k) (skip 2 e)))
      with (skip 1 (skip (3 * S k) (skip 2 e))).
    rewrite !skip_skip. f_equal. lia.
Qed.

Lemma forward_returns_first_accepted_witness :
  exists st' e',
    RandomiseState M_PI_fallback 1 (Singleton three_lines) zeroed (steady 0.25)
    = Some (st', e')
    /\ e' = skip 6 (steady 0.25).
Proof.
  destruct (forward_example_run zeroed) as (st' & e' & H).
  exists st', e'. split; [exact H|].
  destruct (forward_returns_first_accepted _ _ _ _ _ _ _ H)
    as (k & Hk & _ & _ & _ & He).
  assert (k = 0%nat) as -> by lia. exact He.
Defined.

Lemma RandomiseState_run (M_PI : R) (rounds : nat)
    (this : DetectorConstruction) (st : goupil_state) (e : HepRandomEngine)
    (p : double3) (e1 : HepRandomEngine) (last : R * R) :
  sample_position this (0.5 * (groundSize this).[2]) rounds
    (advance (advance e)) = Some (p, e1) ->
  back (spectrum this) = Some last ->
  RandomiseState M_PI rounds this st e
  = Some ({| energy := scan_spectrum (spectrum this) (draw e1 0) (fst last);
             position := {| x := p.[0] / CLHEP.cm;
                            y := p.[1] / CLHEP.cm;
                            z := p.[2] / CLHEP.cm |};
             direction := isotropic_direction M_PI (draw e 0) (draw e 1);
             weight := weight st |}, advance e1).
Proof.
  intros Hp Hb.
  unfold RandomiseState, bind, G4UniformRand, lift, ret.
  cbn [flat drawn].
  change {| flat := flat e; drawn := S (S (drawn e)) |}
    with (advance (advance e)).
  rewrite Hp, Hb. reflexivity.
Qed.

(** X5.  The forward sampler overwrites the energy, the position and
    the direction of the buffer: the state produced depends on the
    state given only through its weight. *)
Theorem forward_overwrites_all_but_weight (M_PI : R) (rounds : nat)
    (this : DetectorConstruction) (st1 st2 : goupil_state)
    (e : HepRandomEngine) (st1' : goupil_state) (e' : HepRandomEngine) :
  RandomiseState M_PI rounds this st1 e = Some (st1', e') ->
  RandomiseState M_PI rounds this st2 e
  = Some (set_weight (weight st2) st1', e').
Proof.
  intros H. apply RandomiseState_inv in H.
  destruct H as (p & e1 & last & Hp & Hb & -> & ->).
  rewrite (RandomiseState_run M_PI rounds this st2 e p e1 last Hp Hb).
  reflexivity.
Qed.

Lemma forward_overwrites_all_but_weight_witness :
  exists st' e',
    RandomiseState M_PI_fallback 1 (Singleton three_lines) zeroed (steady 0.25)
    = Some (st', e')
    /\ RandomiseState M_PI_fallback 1 (Singleton three_lines)
         (set_energy 7 (set_weight 1 zeroed)) (steady 0.25)
       = Some (set_weight 1 st', e').
Proof.
  destruct (forward_example_run zeroed) as (st' & e' & H).
  exists st', e'. split; [exact H|].
  apply (forward_overwrites_all_but_weight _ _ _ zeroed
           (set_energy 7 (set_weight 1 zeroed)) _ _ _ H).
Defined.

Lemma stuck_engine_draws (k : nat) :
  draw (skip (3 * k + 2) stuck_engine) 0 = 0.5
  /\ draw (skip (3 * k + 2) stuck_engine) 1 = 0.5
  /\ draw (skip (3 * k + 2) stuck_engine) 2 = 0.99.
Proof.
  unfold draw, skip, stuck_engine. cbn [flat drawn].
  replace (0 + (3 * k + 2 + 0))%nat with (2 + k * 3)%nat by lia.
  replace (1 + (3 * k + 2 + 0))%nat with (0 + (k + 1) * 3)%nat by lia.
  replace (2 + (3 * k + 2 + 0))%nat with (1 + (k + 1) * 3)%nat by lia.
  rewrite !Nat.Div0.mod_add. repeat split; reflexivity.
Qed.

Lemma stuck_candidate_inside (table : spectrum_t) :
  ~ outside_detector (Singleton table)
      (candidate (Singleton table) 0.5 0.5 0.99).
Proof.
  unfold outside_detector, candidate, Singleton, new_DetectorConstruction,
    CLHEP.km, CLHEP.m, CLHEP.cm, CLHEP.mm.
  simpl. intros [H|[H|H]].
  - rewrite Rabs_pos_eq in H; lra.
  - rewrite Rabs_pos_eq in H; lra.
  - rewrite Rabs_pos_eq in H; lra.
Qed.

Lemma sample_position_stuck (table : spectrum_t) (rounds k : nat) :
  sample_position (Singleton table)
    (0.5 * (groundSize (Singleton table)).[2]) rounds
    (skip (3 * k + 2) stuck_engine) = None.
Proof.
  revert k. induction rounds as [|rounds IH]; intros k.
  - reflexivity.
  - rewrite sample_position_step. cbv zeta.
    match goal with |- (if ?b then _ else _) = _ => destruct b eqn:Hb end.
    + apply accept_outside in Hb. exfalso.
      apply (stuck_candidate_inside table).
      destruct (stuck_engine_draws k) as (H0 & H1 & H2).
      rewrite H0, H1, H2 in Hb. exact Hb.
    + rewrite skip_skip.
      replace (3 + (3 * k + 2))%nat with (3 * S k + 2)%nat by lia.
      apply IH.
Qed.

(** X6.  The rejection loop has no bound of its own.  On an engine that
    delivers numbers of [[0,1)] whose triples all fall inside the
    detector box (0.5, 0.5, 0.99 for the detector of the constructor)
    the forward sampler returns no state, however many rounds it is
    given. *)
Theorem forward_loop_can_spin (M_PI : R) (rounds : nat) (table : spectrum_t)
    (st : goupil_state) :
  uniform stuck_engine
  /\ RandomiseState M_PI rounds (Singleton table) st stuck_engine = None.
Proof.
  split.
  - intros n. unfold stuck_engine. cbn [flat].
    destruct (Nat.eqb (n mod 3) 1); lra.
  - unfold RandomiseState, bind, G4UniformRand, lift, ret.
    cbn [flat drawn].
    change {| flat := flat stuck_engine; drawn := S (S (drawn stuck_engine)) |}
      with (skip (3 * 0 + 2) stuck_engine).
    rewrite sample_position_stuck. reflexivity.
Qed.

(** ** The backward sampler *)

Lemma backward_axis_lt (this : DetectorConstruction) (u : R) :
  (backward_axis this u < 3)%nat.
Proof.
  unfold backward_axis. cbv zeta.
  generalize (snd (face_areas this)) (fst (face_areas this) * u).
  intros c r. simpl.
  destruct (Rleb r c.[0]); [simpl; lia|].
  destruct (Rleb r c.[1]); [simpl; lia|].
  destruct (Rleb r c.[2]); simpl; lia.
Qed.

Lemma RandomiseBackward_geometry M_PI alpha this st e source_energy st' e' :
  RandomiseBackward M_PI alpha this st e = Some (source_energy, st', e') ->
  let axis := backward_axis this (draw e 0) in
  let dir := backward_dir this (draw e 0) in
  let i1 := ((axis + 1) mod 3)%nat in
  let i2 := ((axis + 2) mod 3)%nat in
  (internal_position st').[axis]
    = IZR dir * (0.5 * (detectorSize this).[axis] + 1.0 * CLHEP.um)
      + (detectorPosition this).[axis]
  /\ (internal_position st').[i1]
     = (detectorSize this).[i1] * (0.5 - draw e 1) + (detectorPosition this).[i1]
  /\ (internal_position st').[i2]
     = (detectorSize this).[i2] * (0.5 - draw e 2) + (detectorPosition this).[i2]
  /\ (direction3 st').[axis] = IZR (- dir) * sqrt (draw e 3)
  /\ (direction3 st').[i1]
     = IZR (- dir) * sqrt (1.0 - draw e 3) * cos (2.0 * M_PI * draw e 4)
  /\ (direction3 st').[i2]
     = IZR (- dir) * sqrt (1.0 - draw e 3) * sin (2.0 * M_PI * draw e 4).
Proof.
  unfold RandomiseBackward, bind, G4UniformRand, lift, ret.
  cbn [flat drawn]. intros H.
  destruct (back (spectrum this)) as [last|] eqn:Hb; [|discriminate].
  cbn [flat drawn] in H.
  fold (draw e 0) in H.
  change (flat e (S (drawn e))) with (draw e 1) in H.
  change (flat e (S (S (drawn e)))) with (draw e 2) in H.
  change (flat e (S (S (S (drawn e))))) with (draw e 3) in H.
  change (flat e (S (S (S (S (drawn e)))))) with (draw e 4) in H.
  pose proof (backward_axis_lt this (draw e 0)) as Hax.
  unfold backward_dir. unfold backward_axis in *. cbv zeta in *.
  set (axis := if Nat.eqb _ 3 then 2%nat else _) in *.
  set (dir := if Rgtb _ _ then (-1)%Z else 1%Z) in *.
  assert (exists en w, st' =
     set_weight w (set_direction
        (let direction := set3 (set3 (set3 (0,0,0) ((axis + 1) mod 3) (IZR (- dir) * sqrt (1.0 - draw e 3) * cos (2.0 * M_PI * draw e 4)))
              ((axis + 2) mod 3) (IZR (- dir) * sqrt (1.0 - draw e 3) * sin (2.0 * M_PI * draw e 4))) axis (IZR (- dir) * sqrt (draw e 3)) in
        {| x := direction.[0]; y := direction.[1]; z := direction.[2] |})
      (set_position
        (let position := set3 (set3 (set3 (0,0,0) axis (IZR dir * (0.5 * (detectorSize this).[axis] + 1.0 * CLHEP.um) + (0.0, 0.0, detectorOffset this).[axis]))
               ((axis + 0 + 1) mod 3) ((detectorSize this).[(axis + 0 + 1) mod 3] * (0.5 - draw e 1) + (0.0, 0.0, detectorOffset this).[(axis + 0 + 1) mod 3]))
               ((axis + 1 + 1) mod 3) ((detectorSize this).[(axis + 1 + 1) mod 3] * (0.5 - draw e 2) + (0.0, 0.0, detectorOffset this).[(axis + 1 + 1) mod 3]) in
         {| x := position.[0] / CLHEP.cm; y := position.[1] / CLHEP.cm; z := position.[2] / CLHEP.cm |})
      (set_energy en st)))) as (en & w & Hst).
  { match type of H with context [Rltb ?a alpha] => destruct (Rltb a alpha) end;
      cbn [flat drawn] in H; injection H as _ Hst _; rewrite <- Hst;
      do 2 eexists; reflexivity. }
  subst st'. clear H.
  unfold detectorPosition, internal_position, direction3, CLHEP.cm, CLHEP.mm.
  destruct (detectorSize this) as [[d0 d1] d2].
  destruct axis as [|[|[|axis]]]; [| | |lia]; simpl; repeat split; try reflexivity; field.
Qed.

Ltac decide_comparisons :=
  repeat (cbn [Nat.eqb Nat.ltb Nat.leb Nat.sub get3 set3 fst snd];
          match goal with
          | |- context [Rleb ?a ?b] =>
              let E := fresh "E" in
              destruct (Rleb a b) eqn:E;
              [apply Rleb_true in E | apply Rleb_false in E]
          | |- context [Rgtb ?a ?b] =>
              let E := fresh "E" in
              destruct (Rgtb a b) eqn:E;
              [apply Rgtb_true in E | apply Rgtb_false in E]
          end).

Lemma face_areas_values (this : DetectorConstruction) (d0 d1 d2 : R) :
  detectorSize this = (d0, d1, d2) ->
  face_areas this
  = (0.0 + d1 * d2 + d2 * d0 + d0 * d1,
     (0.0 + d1 * d2, 0.0 + d1 * d2 + d2 * d0,
      0.0 + d1 * d2 + d2 * d0 + d0 * d1)).
Proof. intros H. unfold face_areas. rewrite H. reflexivity. Qed.

Lemma face_by_area (this : DetectorConstruction) (d0 d1 d2 u : R) :
  detectorSize this = (d0, d1, d2) ->
  let A0 := d1 * d2 in
  let A1 := d2 * d0 in
  let A2 := d0 * d1 in
  let r := (A0 + A1 + A2) * u in
  let axis := backward_axis this u in
  let dir := backward_dir this u in
  0 < A0 -> 0 < A1 -> 0 < A2 ->
  (r < A0 / 2 -> axis = 0%nat /\ dir = (-1)%Z)
  /\ (A0 / 2 <= r <= A0 -> axis = 0%nat /\ dir = 1%Z)
  /\ (A0 < r < A0 + A1 / 2 -> axis = 1%nat /\ dir = (-1)%Z)
  /\ (A0 + A1 / 2 <= r <= A0 + A1 -> axis = 1%nat /\ dir = 1%Z)
  /\ (A0 + A1 < r < A0 + A1 + A2 / 2 -> axis = 2%nat /\ dir = (-1)%Z)
  /\ (A0 + A1 + A2 / 2 <= r -> axis = 2%nat /\ dir = 1%Z).
Proof.
  intros Hd A0 A1 A2 r axis dir H0 H1 H2.
  unfold axis, dir, backward_dir, backward_axis.
  rewrite (face_areas_values this d0 d1 d2 Hd). cbv zeta.
  fold A0 A1 A2. cbn [fst snd].
  replace ((0.0 + A0 + A1 + A2) * u) with r by (unfold r; lra).
  clearbody A0 A1 A2 r. cbn [search_axis fst snd].
  repeat split; intros; decide_comparisons; cbn;
    try reflexivity; exfalso; lra.
Qed.

(** X7.  The face is drawn according to the areas.  With the number [u]
    drawn first and [r = (A0 + A1 + A2) u], where [A0 = dy dz],
    [A1 = dz dx], [A2 = dx dy] are the areas of the faces normal to x, y
    and z, the axis and the side chosen are those of the cell of [r] in
    the subdivision of [[0, A0 + A1 + A2]] into six cells, two of length
    [Ai / 2] for each axis, the lower one for the side -1. *)
Theorem backward_face_by_area (this : DetectorConstruction) (d0 d1 d2 u : R) :
  detectorSize this = (d0, d1, d2) ->
  let A0 := d1 * d2 in
  let A1 := d2 * d0 in
  let A2 := d0 * d1 in
  let r := (A0 + A1 + A2) * u in
  let axis := backward_axis this u in
  let dir := backward_dir this u in
  0 < A0 -> 0 < A1 -> 0 < A2 ->
  (r < A0 / 2 -> axis = 0%nat /\ dir = (-1)%Z)
  /\ (A0 / 2 <= r <= A0 -> axis = 0%nat /\ dir = 1%Z)
  /\ (A0 < r < A0 + A1 / 2 -> axis = 1%nat /\ dir = (-1)%Z)
  /\ (A0 + A1 / 2 <= r <= A0 + A1 -> axis = 1%nat /\ dir = 1%Z)
  /\ (A0 + A1 < r < A0 + A1 + A2 / 2 -> axis = 2%nat /\ dir = (-1)%Z)
  /\ (A0 + A1 + A2 / 2 <= r -> axis = 2%nat /\ dir = 1%Z).
Proof. apply face_by_area. Qed.

Lemma backward_face_by_area_witness :
  backward_axis (Singleton three_lines) 0.7 = 2%nat
  /\ backward_dir (Singleton three_lines) 0.7 = (-1)%Z.
Proof.
  assert (detectorSize (Singleton three_lines)
          = (20.0 * CLHEP.m, 20.0 * CLHEP.m, 10.0 * CLHEP.m)) as Hd
    by reflexivity.
  assert (0 < 20.0 * CLHEP.m * (10.0 * CLHEP.m)) as H0
    by (unfold CLHEP.m, CLHEP.mm; lra).
  assert (0 < 10.0 * CLHEP.m * (20.0 * CLHEP.m)) as H1
    by (unfold CLHEP.m, CLHEP.mm; lra).
  assert (0 < 20.0 * CLHEP.m * (20.0 * CLHEP.m)) as H2
    by (unfold CLHEP.m, CLHEP.mm; lra).
  destruct (backward_face_by_area (Singleton three_lines) _ _ _ 0.7 Hd H0 H1 H2)
    as (_ & _ & _ & _ & H & _).
  apply H. unfold CLHEP.m, CLHEP.mm. lra.
Defined.

Lemma Rabs_le_bounds (a b : R) : Rabs a <= b -> - b <= a <= b.
Proof. unfold Rabs. destruct (Rcase_abs a); intros H; lra. Qed.

Lemma backward_dir_cases (this : DetectorConstruction) (u : R) :
  backward_dir this u = (-1)%Z \/ backward_dir this u = 1%Z.
Proof.
  unfold backward_dir. cbv zeta.
  match goal with |- context [Rgtb ?a ?b] => destruct (Rgtb a b) end; auto.
Qed.


(** X9.  The direction of the backward sampler is a unit vector in real
    arithmetic, and its component along the chosen axis is
    [- dir * sqrt u]: on the side [dir] of the detector it never points
    away from the detector. *)
Theorem backward_direction_unit_inward (M_PI alpha : R)
    (this : DetectorConstruction) (st : goupil_state) (e : HepRandomEngine)
    (source_energy : R) (st' : goupil_state) (e' : HepRandomEngine) :
  uniform e ->
  RandomiseBackward M_PI alpha this st e = Some (source_energy, st', e') ->
  let d := direction3 st' in
  let axis := backward_axis this (draw e 0) in
  let dir := backward_dir this (draw e 0) in
  d.[0] * d.[0] + d.[1] * d.[1] + d.[2] * d.[2] = 1
  /\ IZR dir * d.[axis] = - sqrt (draw e 3)
  /\ IZR dir * d.[axis] <= 0.
Proof.
  intros Hu H.
  destruct (RandomiseBackward_geometry _ _ _ _ _ _ _ _ H)
    as (_ & _ & _ & Ha & Hi1 & Hi2).
  pose proof (backward_axis_lt this (draw e 0)) as Hax.
  pose proof (Hu (3 + drawn e)%nat) as Hu3. fold (draw e 3) in Hu3.
  cbv zeta in *.
  set (d := direction3 st') in *.
  set (axis := backward_axis this (draw e 0)) in *.
  clearbody d axis.
  assert (sqrt (draw e 3) * sqrt (draw e 3) = draw e 3) as Hc
    by (apply sqrt_sqrt; lra).
  assert (sqrt (1.0 - draw e 3) * sqrt (1.0 - draw e 3) = 1.0 - draw e 3) as Hs
    by (apply sqrt_sqrt; lra).
  pose proof (sin2_cos2 (2.0 * M_PI * draw e 4)) as Hsc. unfold Rsqr in Hsc.
  pose proof (sqrt_pos (draw e 3)) as Hpos.
  set (c := sqrt (draw e 3)) in *.
  set (s := sqrt (1.0 - draw e 3)) in *.
  set (sn := sin (2.0 * M_PI * draw e 4)) in *.
  set (cs := cos (2.0 * M_PI * draw e 4)) in *.
  assert (s * cs * (s * cs) + s * sn * (s * sn) + c * c = 1) as Hunit.
  { replace (s * cs * (s * cs) + s * sn * (s * sn) + c * c)
      with (s * s * (sn * sn + cs * cs) + c * c) by ring.
    rewrite Hsc, Hs, Hc. lra. }
  assert (IZR (backward_dir this (draw e 0)) * IZR (backward_dir this (draw e 0)) = 1)
    as Hdd.
  { destruct (backward_dir_cases this (draw e 0)) as [-> | ->]; lra. }
  assert (IZR (- backward_dir this (draw e 0))
          = - IZR (backward_dir this (draw e 0))) as Hopp
    by apply opp_IZR.
  rewrite Hopp in *.
  set (g := IZR (backward_dir this (draw e 0))) in *. clearbody g.
  split; [|split].
  - destruct d as [[dx dy] dz].
    destruct axis as [|[|[|axis]]]; [| | |lia]; simpl in *; subst; nra.
  - rewrite Ha. nra.
  - rewrite Ha. nra.
Qed.

Lemma backward_weight_branches (M_PI alpha : R)
    (this : DetectorConstruction) (st : goupil_state) (e : HepRandomEngine)
    (source_energy : R) (st' : goupil_state) (e' : HepRandomEngine) :
  RandomiseBackward M_PI alpha this st e = Some (source_energy, st', e') ->
  (draw e 6 < alpha ->
     energy st' = source_energy
     /\ weight st' = 2 * totalArea this * M_PI / alpha
     /\ e' = skip 7 e)
  /\ (alpha <= draw e 6 ->
        energy st' = 1e-2 * exp (ln (source_energy / 1e-2) * draw e 7)
        /\ weight st'
           = 2 * totalArea this * M_PI
             * (energy st' * ln (source_energy / 1e-2) / (1.0 - alpha))
        /\ e' = skip 8 e).
Proof.
  intros H.
  destruct (RandomiseBackward_inv _ _ _ _ _ _ _ _ H) as (last & _ & _ & Hbr).
  cbv zeta in Hbr. rewrite face_areas_total in Hbr.
  split; intros Hc.
  - rewrite (proj2 (Rltb_true _ _) Hc) in Hbr. exact Hbr.
  - rewrite (proj2 (Rltb_false _ _) Hc) in Hbr. exact Hbr.
Qed.

(** X10.  For [alpha] strictly between 0 and 1, a positive [M_PI], a
    detector of positive area and a source energy above the floor 0.01,
    the weight produced is positive: [2 totalArea M_PI / alpha] on the
    direct branch, and [2 totalArea M_PI] times
    [energy * ln (sourceEnergy / 0.01) / (1 - alpha)] on the auxiliary
    one. *)
Theorem backward_weight_positive (M_PI alpha : R)
    (this : DetectorConstruction) (st : goupil_state) (e : HepRandomEngine)
    (source_energy : R) (st' : goupil_state) (e' : HepRandomEngine) :
  uniform e ->
  0 < alpha < 1 ->
  0 < M_PI ->
  0 < totalArea this ->
  1e-2 < source_energy ->
  RandomiseBackward M_PI alpha this st e = Some (source_energy, st', e') ->
  0 < weight st'
  /\ (draw e 6 < alpha -> weight st' = 2 * totalArea this * M_PI / alpha)
  /\ (alpha <= draw e 6 ->
        weight st'
        = 2 * totalArea this * M_PI
          * (energy st' * ln (source_energy / 1e-2) / (1.0 - alpha))).
Proof.
  intros Hu Ha Hpi Harea Hfloor H.
  destruct (backward_weight_branches _ _ _ _ _ _ _ _ H) as (Hd & Hx).
  pose proof (Hu (7 + drawn e)%nat) as H7. fold (draw e 7) in H7.
  assert (0 < 2 * totalArea this * M_PI) as Hw by nra.
  split; [|split].
  - destruct (Rlt_le_dec (draw e 6) alpha) as [Hc|Hc].
    + destruct (Hd Hc) as (_ & -> & _).
      apply Rdiv_lt_0_compat; lra.
    + destruct (Hx Hc) as (He & -> & _).
      pose proof (auxiliary_energy_bounds source_energy (draw e 7) Hfloor H7)
        as Hb. rewrite <- He in Hb.
      assert (0 < ln (source_energy / 1e-2)) as Hln.
      { rewrite <- ln_1. apply ln_increasing; [lra|].
        apply Rmult_lt_reg_r with (r := 1e-2); [lra|]. field_simplify. lra. }
      apply Rmult_lt_0_compat; [exact Hw|].
      apply Rdiv_lt_0_compat; [|lra].
      apply Rmult_lt_0_compat; lra.
  - intros Hc. apply (Hd Hc).
  - intros Hc. apply (Hx Hc).
Qed.

(** X11.  A spectrum line on the floor of the auxiliary branch.  When
    the source energy drawn equals 0.01 and the auxiliary branch is
    taken, the quotient [sourceEnergy / 0.01] is 1 and its logarithm 0:
    the energy produced is 0.01 whatever number is drawn for it, and
    the weight is 0. *)
Theorem backward_source_at_floor (M_PI alpha : R)
    (table : spectrum_t) (st : goupil_state) (e : HepRandomEngine)
    (source_energy : R) (st' : goupil_state) (e' : HepRandomEngine) :
  uniform e ->
  alpha <= draw e 6 ->
  RandomiseBackward M_PI alpha (Singleton table) st e
  = Some (source_energy, st', e') ->
  source_energy = 1e-2 ->
  alpha < 1 /\ energy st' = 1e-2 /\ weight st' = 0.
Proof.
  intros Hu Hc H Hs.
  destruct (backward_weight_branches _ _ _ _ _ _ _ _ H) as (_ & Hx).
  destruct (Hx Hc) as (He & Hw & _).
  pose proof (Hu (6 + drawn e)%nat) as H6. fold (draw e 6) in H6.
  rewrite Hs in He, Hw.
  replace (1e-2 / 1e-2) with 1 in He, Hw by (field; lra).
  rewrite ln_1 in He, Hw. rewrite Rmult_0_l, exp_0 in He.
  split; [lra|]. split; [lra|].
  rewrite Hw. unfold Rdiv. ring.
Qed.

(** X12.  The backward sampler assigns all four fields of the state:
    its result does not depend on what the buffer held. *)
Theorem backward_overwrites_state (M_PI alpha : R)
    (this : DetectorConstruction) (st1 st2 : goupil_state)
    (e : HepRandomEngine) :
  RandomiseBackward M_PI alpha this st1 e
  = RandomiseBackward M_PI alpha this st2 e.
Proof.
  unfold RandomiseBackward, bind, G4UniformRand, lift, ret.
  cbn [flat drawn].
  destruct (back (spectrum this)) as [last|]; [|reflexivity].
  cbn [flat drawn].
  match goal with |- context [Rltb ?a alpha] => destruct (Rltb a alpha) end;
    reflexivity.
Qed.

Lemma RandomiseBackward_shape M_PI alpha this st e source_energy st' e' :
  RandomiseBackward M_PI alpha this st e = Some (source_energy, st', e') ->
  position st' = backward_position this (draw e 0) (draw e 1) (draw e 2)
  /\ direction st' = backward_direction M_PI this (draw e 0) (draw e 3) (draw e 4).
Proof.
  unfold RandomiseBackward, bind, G4UniformRand, lift, ret.
  cbn [flat drawn]. intros H.
  destruct (back (spectrum this)) as [last|] eqn:Hb; [|discriminate].
  cbn [flat drawn] in H.
  match type of H with context [Rltb ?a alpha] => destruct (Rltb a alpha) end;
    cbn [flat drawn] in H; injection H as _ Hst _; rewrite <- Hst;
    split; reflexivity.
Qed.

(** X13.  The source energy returned, the position and the direction
    of the backward sampler do not depend on [alpha]: [alpha] only
    decides the energy of the state and its weight. *)
Theorem backward_geometry_independent_of_alpha (M_PI alpha1 alpha2 : R)
    (this : DetectorConstruction) (st : goupil_state) (e : HepRandomEngine)
    (s1 s2 : R) (st1 st2 : goupil_state) (e1 e2 : HepRandomEngine) :
  RandomiseBackward M_PI alpha1 this st e = Some (s1, st1, e1) ->
  RandomiseBackward M_PI alpha2 this st e = Some (s2, st2, e2) ->
  s1 = s2 /\ position st1 = position st2 /\ direction st1 = direction st2.
Proof.
  intros H1 H2.
  destruct (RandomiseBackward_inv _ _ _ _ _ _ _ _ H1) as (l1 & Hb1 & Hs1 & _).
  destruct (RandomiseBackward_inv _ _ _ _ _ _ _ _ H2) as (l2 & Hb2 & Hs2 & _).
  destruct (RandomiseBackward_shape _ _ _ _ _ _ _ _ H1) as (Hp1 & Hd1).
  destruct (RandomiseBackward_shape _ _ _ _ _ _ _ _ H2) as (Hp2 & Hd2).
  rewrite Hb1 in Hb2. injection Hb2 as <-.
  rewrite Hs1, Hs2, Hp1, Hp2, Hd1, Hd2. repeat split; reflexivity.
Qed.



Lemma backward_direction_unit_inward_witness :
  exists source_energy st' e',
    RandomiseBackward M_PI_fallback 0.5 (Singleton three_lines) zeroed
      (steady 0.25) = Some (source_energy, st', e')
    /\ (direction3 st').[0] * (direction3 st').[0]
       + (direction3 st').[1] * (direction3 st').[1]
       + (direction3 st').[2] * (direction3 st').[2] = 1.
Proof.
  destruct (backward_example_run 0.5 zeroed) as (s & st' & e' & H).
  exists s, st', e'. split; [exact H|].
  apply (backward_direction_unit_inward _ _ _ _ _ _ _ _
           (uniform_steady 0.25 ltac:(lra)) H).
Defined.

Lemma backward_example_source (alpha : R) (st : goupil_state)
    (s : R) (st' : goupil_state) (e' : HepRandomEngine) (table : spectrum_t) :
  RandomiseBackward M_PI_fallback alpha (Singleton table) st (steady 0.25)
  = Some (s, st', e') ->
  In s (energies table).
Proof.
  intros H.
  destruct (RandomiseBackward_inv _ _ _ _ _ _ _ _ H) as (last & Hb & Hs & _).
  assert (sample (spectrum (Singleton table)) (draw (steady 0.25) 5) = Some s)
    as Hsample.
  { unfold sample. rewrite Hb, Hs. reflexivity. }
  apply sample_in_table in Hsample.
  simpl in Hsample. unfold normalize_intensities in Hsample.
  rewrite accumulate_energies in Hsample. exact Hsample.
Qed.

Lemma backward_weight_positive_witness :
  exists source_energy st' e',
    RandomiseBackward M_PI_fallback 0.5 (Singleton three_lines) zeroed
      (steady 0.25) = Some (source_energy, st', e')
    /\ 0 < weight st'.
Proof.
  destruct (backward_example_run 0.5 zeroed) as (s & st' & e' & H).
  exists s, st', e'. split; [exact H|].
  assert (1e-2 < s) as Hs.
  { pose proof (backward_example_source _ _ _ _ _ _ H) as Hin.
    unfold three_lines in Hin. simpl in Hin.
    destruct Hin as [<-|[<-|[<-|[]]]]; lra. }
  assert (0 < totalArea (Singleton three_lines)) as Harea
    by (rewrite totalArea_Singleton; lra).
  assert (0 < M_PI_fallback) as Hpi by (unfold M_PI_fallback; lra).
  assert (0 < 0.5 < 1) as Ha by lra.
  apply (backward_weight_positive M_PI_fallback 0.5 _ _ _ _ _ _
           (uniform_steady 0.25 ltac:(lra)) Ha Hpi Harea Hs H).
Defined.

Lemma backward_source_at_floor_witness :
  exists source_energy st' e',
    RandomiseBackward M_PI_fallback 0 (Singleton floor_line) zeroed
      (steady 0.25) = Some (source_energy, st', e')
    /\ energy st' = 1e-2
    /\ weight st' = 0.
Proof.
  assert (spectrum (Singleton floor_line) <> []) as Hne.
  { simpl. discriminate. }
  destruct (RandomiseBackward_total M_PI_fallback 0 (Singleton floor_line)
              zeroed (steady 0.25) Hne) as (s & st' & e' & H).
  exists s, st', e'. split; [exact H|].
  assert (s = 1e-2) as Hs.
  { pose proof (backward_example_source _ _ _ _ _ _ H) as Hin.
    unfold floor_line in Hin. simpl in Hin.
    destruct Hin as [<-|[]]. reflexivity. }
  assert (0 <= draw (steady 0.25) 6) as Hbranch
    by (unfold draw, steady; simpl; lra).
  exact (proj2 (backward_source_at_floor M_PI_fallback 0 _ _ _ _ _ _
                  (uniform_steady 0.25 ltac:(lra)) Hbranch H Hs)).
Defined.

Lemma backward_geometry_independent_of_alpha_witness :
  exists s1 st1 e1 s2 st2 e2,
    RandomiseBackward M_PI_fallback 0 (Singleton three_lines) zeroed
      (steady 0.25) = Some (s1, st1, e1)
    /\ RandomiseBackward M_PI_fallback 1 (Singleton three_lines) zeroed
         (steady 0.25) = Some (s2, st2, e2)
    /\ s1 = s2 /\ position st1 = position st2 /\ direction st1 = direction st2.
Proof.
  destruct (backward_example_run 0 zeroed) as (s1 & st1 & e1 & H1).
  destruct (backward_example_run 1 zeroed) as (s2 & st2 & e2 & H2).
  exists s1, st1, e1, s2, st2, e2.
  split; [exact H1|]. split; [exact H2|].
  apply (backward_geometry_independent_of_alpha _ _ _ _ _ _ _ _ _ _ _ _ H1 H2).
Defined.

(** ** The bulk entry points *)

Lemma uniform_same_flat (e e' : HepRandomEngine) :
  flat e' = flat e -> uniform e -> uniform e'.
Proof. unfold uniform. intros -> H. exact H. Qed.

Lemma RandomiseState_in_source_region M_PI rounds table st e st' e' :
  uniform e ->
  RandomiseState M_PI rounds (Singleton table) st e = Some (st', e') ->
  in_source_region table st'.
Proof.
  intros Hu H.
  destruct (RandomiseState_position _ _ _ _ _ _ _ H) as (k & _ & Hp & Hout).
  split; [|exact Hout].
  rewrite Hp. apply candidate_inside_air; apply Hu.
Qed.

Lemma g4randomize_states_step M_PI rounds table size state states e :
  g4randomize_states M_PI rounds table (S size) (state :: states) e
  = match RandomiseState M_PI rounds (Singleton table) state e with
    | Some (state', e1) =>
        match g4randomize_states M_PI rounds table size states e1 with
        | Some (states', e2) => Some (state' :: states', e2)
        | None => None
        end
    | None => None
    end.
Proof.
  cbn [g4randomize_states]. unfold bind at 1.
  destruct (RandomiseState M_PI rounds (Singleton table) state e)
    as [[state' e1]|]; [|reflexivity].
  unfold bind, ret.
  destruct (g4randomize_states M_PI rounds table size states e1)
    as [[states' e2]|]; reflexivity.
Qed.

Lemma g4randomize_states_inv M_PI rounds table size :
  forall states e out e',
  uniform e ->
  g4randomize_states M_PI rounds table size states e = Some (out, e') ->
  (size <= length states)%nat
  /\ length out = length states
  /\ skipn size out = skipn size states
  /\ map weight out = map weight states
  /\ Forall (in_source_region table) (firstn size out)
  /\ flat e' = flat e.
Proof.
  induction size as [|size IH]; intros states e out e' Hu H.
  - injection H as <- <-. repeat split; auto. lia.
  - destruct states as [|state states]; [discriminate|].
    rewrite g4randomize_states_step in H.
    destruct (RandomiseState M_PI rounds (Singleton table) state e)
      as [[state' e1]|] eqn:H1; [|discriminate].
    destruct (g4randomize_states M_PI rounds table size states e1)
      as [[states' e2]|] eqn:H2; [|discriminate].
    injection H as <- <-.
    destruct (RandomiseState_energy _ _ _ _ _ _ _ H1) as (n & _ & Hf & _).
    destruct (IH _ _ _ _ (uniform_same_flat _ _ Hf Hu) H2)
      as (Hle & Hlen & Hskip & Hw & Hall & Hf2).
    repeat split; simpl.
    + lia.
    + f_equal. exact Hlen.
    + exact Hskip.
    + f_equal; [apply (RandomiseState_weight _ _ _ _ _ _ _ H1) | exact Hw].
    + constructor; [|exact Hall].
      apply (RandomiseState_in_source_region _ _ _ _ _ _ _ Hu H1).
    + rewrite Hf2. exact Hf.
Qed.

(** X14.  [g4randomize_states] fills the first [size] states of the
    buffer and leaves the others as they were; the buffer holds at
    least [size] states and keeps its length; no weight is changed; and
    with numbers of [[0,1)] every state filled lies in the air box and
    outside the detector box. *)
Theorem g4randomize_states_fills (M_PI : R) (rounds : nat) (table : spectrum_t)
    (size : nat) (states : list goupil_state) (e : HepRandomEngine)
    (out : list goupil_state) (e' : HepRandomEngine) :
  uniform e ->
  g4randomize_states M_PI rounds table size states e = Some (out, e') ->
  (size <= length states)%nat
  /\ length out = length states
  /\ skipn size out = skipn size states
  /\ map weight out = map weight states
  /\ Forall (fun s =>
               inside_air (Singleton table) (internal_position s)
               /\ outside_detector (Singleton table) (internal_position s))
       (firstn size out).
Proof.
  intros Hu H.
  destruct (g4randomize_states_inv _ _ _ _ _ _ _ _ Hu H)
    as (H1 & H2 & H3 & H4 & H5 & _).
  repeat split; assumption.
Qed.

(** X15.  Filling a buffer in two calls is filling it in one: the
    engine is all that one call of [g4randomize_states] hands to the
    next. *)
Theorem g4randomize_states_in_two_calls (M_PI : R) (rounds : nat)
    (table : spectrum_t) (n1 n2 : nat) (a b : list goupil_state)
    (e : HepRandomEngine) :
  length a = n1 ->
  g4randomize_states M_PI rounds table (n1 + n2) (a ++ b) e
  = match g4randomize_states M_PI rounds table n1 a e with
    | Some (a', e1) =>
        match g4randomize_states M_PI rounds table n2 b e1 with
        | Some (b', e2) => Some (a' ++ b', e2)
        | None => None
        end
    | None => None
    end.
Proof.
  revert a e. induction n1 as [|n1 IH]; intros a e Ha.
  - destruct a; [|discriminate]. simpl.
    destruct (g4randomize_states M_PI rounds table n2 b e) as [[b' e2]|];
      reflexivity.
  - destruct a as [|state a]; [discriminate|].
    injection Ha as Ha.
    change (S n1 + n2)%nat with (S (n1 + n2)).
    change ((state :: a) ++ b) with (state :: (a ++ b)).
    rewrite !g4randomize_states_step.
    destruct (RandomiseState M_PI rounds (Singleton table) state e)
      as [[state' e1]|]; [|reflexivity].
    rewrite (IH a e1 Ha).
    destruct (g4randomize_states M_PI rounds table n1 a e1) as [[a' e2]|];
      [|reflexivity].
    destruct (g4randomize_states M_PI rounds table n2 b e2) as [[b' e3]|];
      reflexivity.
Qed.

Lemma g4randomize_backward_step M_PI table alpha size state states src
    sources e :
  g4randomize_backward M_PI table alpha (S size) (state :: states)
    (src :: sources) e
  = match RandomiseBackward M_PI alpha (Singleton table) state e with
    | Some (r, e1) =>
        match g4randomize_backward M_PI table alpha size states sources e1 with
        | Some (rest, e2) => Some ((snd r :: fst rest, fst r :: snd rest), e2)
        | None => None
        end
    | None => None
    end.
Proof.
  cbn [g4randomize_backward]. unfold bind at 1.
  destruct (RandomiseBackward M_PI alpha (Singleton table) state e)
    as [[r e1]|]; [|reflexivity].
  unfold bind, ret.
  destruct (g4randomize_backward M_PI table alpha size states sources e1)
    as [[rest e2]|]; reflexivity.
Qed.

Lemma RandomiseBackward_flat M_PI alpha this st e s st' e' :
  RandomiseBackward M_PI alpha this st e = Some (s, st', e') ->
  flat e' = flat e.
Proof.
  intros H.
  destruct (backward_weight_branches _ _ _ _ _ _ _ _ H) as (Hd & Hx).
  destruct (Rlt_le_dec (draw e 6) alpha) as [Hc|Hc].
  - destruct (Hd Hc) as (_ & _ & ->). reflexivity.
  - destruct (Hx Hc) as (_ & _ & ->). reflexivity.
Qed.

Lemma g4randomize_backward_one (M_PI : R) (table : spectrum_t)
    (size : nat) :
  forall (states : list goupil_state) (sources : list R) (e : HepRandomEngine)
         (out : list goupil_state) (srcs : list R) (e' : HepRandomEngine),
  uniform e ->
  g4randomize_backward M_PI table 1 size states sources e
  = Some ((out, srcs), e') ->
  length out = length states
  /\ length srcs = length sources
  /\ skipn size out = skipn size states
  /\ skipn size srcs = skipn size sources
  /\ map energy (firstn size out) = firstn size srcs
  /\ Forall (fun s => weight s = 2 * 8000000 * M_PI) (firstn size out).
Proof.
  induction size as [|size IH]; intros states sources e out srcs e' Hu H.
  - injection H as <- <- <-. repeat split; auto.
  - destruct states as [|state states]; [discriminate|].
    destruct sources as [|src sources]; [discriminate|].
    rewrite g4randomize_backward_step in H.
    destruct (RandomiseBackward M_PI 1 (Singleton table) state e)
      as [[[s st'] e1]|] eqn:H1; [|discriminate].
    destruct (g4randomize_backward M_PI table 1 size states sources e1)
      as [[[out' srcs'] e2]|] eqn:H2; [|discriminate].
    injection H as <- <- <-.
    pose proof (RandomiseBackward_flat _ _ _ _ _ _ _ _ H1) as Hf.
    destruct (IH _ _ _ _ _ _ (uniform_same_flat _ _ Hf Hu) H2)
      as (Hl1 & Hl2 & Hs1 & Hs2 & Hen & Hw).
    destruct (backward_weight_branches _ _ _ _ _ _ _ _ H1) as (Hd & _).
    pose proof (Hu (6 + drawn e)%nat) as H6. fold (draw e 6) in H6.
    destruct (Hd ltac:(lra)) as (He & Hwt & _).
    simpl. repeat split.
    + f_equal. exact Hl1.
    + f_equal. exact Hl2.
    + exact Hs1.
    + exact Hs2.
    + f_equal; [exact He | exact Hen].
    + constructor; [|exact Hw].
      rewrite Hwt, totalArea_Singleton. field.
Qed.

(** X16.  [g4randomize_backward] keeps the lengths of both buffers and
    leaves their entries past [size] as they were.  With [alpha = 1]
    and numbers of [[0,1)] the energy of every state filled is the
    source energy written at the same index, and every weight is
    [2 * 8e6 * M_PI], the geometric factor of the detector. *)
Theorem g4randomize_backward_alpha_one (M_PI : R) (table : spectrum_t)
    (size : nat) (states : list goupil_state) (sources : list R)
    (e : HepRandomEngine) (out : list goupil_state) (srcs : list R)
    (e' : HepRandomEngine) :
  uniform e ->
  g4randomize_backward M_PI table 1 size states sources e
  = Some ((out, srcs), e') ->
  length out = length states
  /\ length srcs = length sources
  /\ skipn size out = skipn size states
  /\ skipn size srcs = skipn size sources
  /\ map energy (firstn size out) = firstn size srcs
  /\ Forall (fun s => weight s = 2 * 8000000 * M_PI) (firstn size out).
Proof. apply g4randomize_backward_one. Qed.

Lemma RandomiseState_steady (st : goupil_state) (e : HepRandomEngine) :
  flat e = (fun _ => 0.25) ->
  exists st' e',
    RandomiseState M_PI_fallback 1 (Singleton three_lines) st e = Some (st', e')
    /\ flat e' = flat e.
Proof.
  intros Hf.
  destruct (RandomiseState_total M_PI_fallback 1 (Singleton three_lines) st e
              0%nat) as (st' & e' & H).
  - lia.
  - unfold outside_detector, candidate, draw. rewrite Hf.
    unfold Singleton, new_DetectorConstruction, CLHEP.km, CLHEP.m, CLHEP.mm.
    simpl. left. rewrite Rabs_pos_eq; lra.
  - rewrite spectrum_three_lines. discriminate.
  - exists st', e'. split; [exact H|].
    destruct (RandomiseState_energy _ _ _ _ _ _ _ H) as (n & _ & Hfl & _).
    exact Hfl.
Qed.

Lemma g4randomize_states_steady (size : nat) :
  forall (states : list goupil_state) (e : HepRandomEngine),
  flat e = (fun _ => 0.25) ->
  (size <= length states)%nat ->
  exists out e',
    g4randomize_states M_PI_fallback 1 three_lines size states e
    = Some (out, e').
Proof.
  induction size as [|size IH]; intros states e Hf Hlen.
  - simpl. unfold ret. eauto.
  - destruct states as [|state states]; [simpl in Hlen; lia|].
    rewrite g4randomize_states_step.
    destruct (RandomiseState_steady state e Hf) as (st' & e1 & H1 & Hf1).
    rewrite H1.
    destruct (IH states e1) as (out & e2 & H2).
    + rewrite Hf1. exact Hf.
    + simpl in Hlen. lia.
    + rewrite H2. eauto.
Qed.

Lemma g4randomize_states_fills_witness :
  exists out e',
    g4randomize_states M_PI_fallback 1 three_lines 2
      [zeroed; zeroed; set_weight 1 zeroed] (steady 0.25) = Some (out, e')
    /\ length out = 3%nat
    /\ skipn 2 out = [set_weight 1 zeroed]
    /\ map weight out = [0; 0; 1].
Proof.
  destruct (g4randomize_states_steady 2 [zeroed; zeroed; set_weight 1 zeroed]
              (steady 0.25) eq_refl ltac:(simpl; lia)) as (out & e' & H).
  exists out, e'. split; [exact H|].
  destruct (g4randomize_states_fills _ _ _ _ _ _ _ _
              (uniform_steady 0.25 ltac:(lra)) H) as (_ & Hl & Hs & Hw & _).
  repeat split; assumption.
Defined.

Lemma g4randomize_states_in_two_calls_witness :
  g4randomize_states M_PI_fallback 1 three_lines (1 + 1)
    ([zeroed] ++ [zeroed]) (steady 0.25)
  = match g4randomize_states M_PI_fallback 1 three_lines 1 [zeroed]
            (steady 0.25) with
    | Some (a', e1) =>
        match g4randomize_states M_PI_fallback 1 three_lines 1 [zeroed] e1 with
        | Some (b', e2) => Some (a' ++ b', e2)
        | None => None
        end
    | None => None
    end.
Proof.
  apply (g4randomize_states_in_two_calls M_PI_fallback 1 three_lines 1 1
           [zeroed] [zeroed] (steady 0.25) eq_refl).
Defined.

Lemma g4randomize_backward_total (M_PI : R) (table : spectrum_t) (alpha : R)
    (size : nat) :
  forall (states : list goupil_state) (sources : list R) (e : HepRandomEngine),
  spectrum (Singleton table) <> [] ->
  (size <= length states)%nat ->
  (size <= length sources)%nat ->
  exists out srcs e',
    g4randomize_backward M_PI table alpha size states sources e
    = Some ((out, srcs), e').
Proof.
  induction size as [|size IH]; intros states sources e Hs Hl1 Hl2.
  - simpl. unfold ret. eauto.
  - destruct states as [|state states]; [simpl in Hl1; lia|].
    destruct sources as [|src sources]; [simpl in Hl2; lia|].
    rewrite g4randomize_backward_step.
    destruct (RandomiseBackward_total M_PI alpha (Singleton table) state e Hs)
      as (s & st' & e1 & H1).
    rewrite H1.
    destruct (IH states sources e1 Hs) as (out & srcs & e2 & H2).
    + simpl in Hl1. lia.
    + simpl in Hl2. lia.
    + rewrite H2. simpl. eauto.
Qed.

Lemma g4randomize_backward_alpha_one_witness :
  exists out srcs e',
    g4randomize_backward M_PI_fallback three_lines 1 2
      [zeroed; zeroed] [0; 0] (steady 0.25) = Some ((out, srcs), e')
    /\ map energy (firstn 2 out) = firstn 2 srcs.
Proof.
  assert (spectrum (Singleton three_lines) <> []) as Hs.
  { rewrite spectrum_three_lines. discriminate. }
  destruct (g4randomize_backward_total M_PI_fallback three_lines 1 2
              [zeroed; zeroed] [0; 0] (steady 0.25) Hs
              ltac:(simpl; lia) ltac:(simpl; lia)) as (out & srcs & e' & H).
  exists out, srcs, e'. split; [exact H|].
  destruct (g4randomize_backward_alpha_one _ _ _ _ _ _ _ _ _
              (uniform_steady 0.25 ltac:(lra)) H) as (_ & _ & _ & _ & He & _).
  exact He.
Defined.

(** ** The scene graph *)

Lemma Construct_scene (this : DetectorConstruction) :
  exists h top,
    Construct this [] = Some (top, h)
    /\ length h = 12%nat
    /\ placed_boxes 3 h (0, 0, 0) top
       = Some [("World"%string, world_box this); ("Air"%string, air_box this);
               ("Detector"%string, detector_box this);
               ("Ground"%string, ground_box this)].
Proof.
  eexists. eexists. split; [reflexivity|]. split; [reflexivity|].
  unfold world_box, air_box, detector_box, ground_box, half.
  cbn -[Rplus Rmult Rminus Ropp Rdiv IZR vadd].
  unfold vadd. cbn [get3].
  repeat (f_equal; try lra).
Qed.

(** X17.  [Construct] on an empty heap builds twelve objects, a solid, a
    logical volume and a placement for each of four volumes, and
    returns the placement of the world.  Read from the heap along the
    daughter lists of the logical volumes, in world coordinates, the
    scene is the tree: World at the origin, with the two daughters Air
    and Ground, in this order; Air, half the ground thickness above the
    origin, with the one daughter Detector, centred at height
    [detectorOffset], the height both samplers use; Ground, half the
    air height below the origin, and Detector without daughters.  Each
    box has half the size the constructor gives.  The placements of Air
    and Ground (cells 4 and 7) name the logical volume World as their
    mother, the placement of Detector (cell 10) names Air, and the
    placement of the world (cell 11, the result) has no mother. *)
Theorem Construct_scene_graph (this : DetectorConstruction) :
  exists h top,
    Construct this [] = Some (top, h)
    /\ length h = 12%nat
    /\ top = 11%nat
    /\ placed_tree 3 h (0, 0, 0) top
       = Some (Volume "World" (world_box this)
                 [Volume "Air" (air_box this)
                    [Volume "Detector" (detector_box this) []];
                  Volume "Ground" (ground_box this) []])
    /\ map (mother_name h) [4; 7; 10; 11]%nat
       = [Some (Some "World"%string); Some (Some "World"%string);
          Some (Some "Air"%string); Some None].
Proof.
  eexists. eexists. split; [reflexivity|]. split; [reflexivity|].
  split; [reflexivity|]. split; [|reflexivity].
  unfold world_box, air_box, detector_box, ground_box, half.
  cbn -[Rplus Rmult Rminus Ropp Rdiv IZR vadd].
  unfold vadd. cbn [get3].
  repeat (f_equal; try lra).
Qed.

Lemma Rabs_minus_0 (a : R) : Rabs (a - 0) = Rabs a.
Proof. f_equal. lra. Qed.

Lemma air_box_region (this : DetectorConstruction) (p : double3) :
  in_box (air_box this) p <-> inside_air this p.
Proof.
  unfold in_box, air_box, half, inside_air. cbn [fst snd get3].
  rewrite !Rabs_minus_0. tauto.
Qed.

Lemma detector_box_region (this : DetectorConstruction) (p : double3) :
  in_box (detector_box this) p <-> ~ outside_detector this p.
Proof.
  unfold in_box, detector_box, half, outside_detector. cbn [fst snd get3].
  rewrite !Rabs_minus_0. split.
  - intros (H0 & H1 & H2) [H|[H|H]]; lra.
  - intros H. repeat split; apply Rnot_gt_le; intros Hgt; apply H; auto.
Qed.

Lemma sample_position_one_round (this : DetectorConstruction)
    (e : HepRandomEngine) :
  let p := candidate this (draw e 0) (draw e 1) (draw e 2) in
  (outside_detector this p ->
   sample_position this (0.5 * (groundSize this).[2]) 1 e = Some (p, skip 3 e))
  /\ (~ outside_detector this p ->
      sample_position this (0.5 * (groundSize this).[2]) 1 e = None).
Proof.
  intros p. rewrite sample_position_step. fold p.
  pose proof (accept_outside this p) as Hacc.
  match goal with |- context [if ?b then _ else _] => destruct b end.
  - split; [reflexivity|]. intros Hn. exfalso. apply Hn. apply Hacc. reflexivity.
  - split; [|reflexivity]. intros Ho. apply Hacc in Ho. discriminate.
Qed.

(** X18.  The rejection loop of the forward sampler works on the boxes
    of the scene.  In the scene [NewGeometry] builds, read in world
    coordinates: every candidate position of the loop, for numbers of
    [[0,1)], lies in the box of Air; one round of the loop gives its
    candidate back when it lies outside the box of Detector and gives
    nothing when it lies inside; the centre of the box of Detector is
    the [detectorPosition] of the backward sampler. *)
Theorem scene_boxes_are_sampler_regions (table : spectrum_t)
    (e : HepRandomEngine) :
  let this := Singleton table in
  let p := candidate this (draw e 0) (draw e 1) (draw e 2) in
  let round := sample_position this (0.5 * (groundSize this).[2]) 1 e in
  exists h root boxes bA bD,
    NewGeometry table [] = Some (root, h)
    /\ placed_boxes 3 h (0, 0, 0) root = Some boxes
    /\ scene_box boxes "Air" = Some bA
    /\ scene_box boxes "Detector" = Some bD
    /\ (uniform e -> in_box bA p)
    /\ (~ in_box bD p -> round = Some (p, skip 3 e))
    /\ (in_box bD p -> round = None)
    /\ (forall i, (fst bD).[i] = (detectorPosition this).[i]).
Proof.
  cbv zeta.
  destruct (Construct_scene (Singleton table)) as (h & root & Hc & _ & Hb).
  destruct (sample_position_one_round (Singleton table) e) as (Hacc & Hrej).
  exists h, root. eexists.
  exists (air_box (Singleton table)), (detector_box (Singleton table)).
  split; [exact Hc|]. split; [exact Hb|].
  split; [reflexivity|]. split; [reflexivity|].
  split; [|split; [|split]].
  - intros Hu. apply air_box_region. apply candidate_inside_air.
    + exact (Hu (0 + drawn e)%nat).
    + exact (Hu (1 + drawn e)%nat).
    + exact (Hu (2 + drawn e)%nat).
  - intros Hn. apply Hacc.
    destruct (Rgt_dec (Rabs (candidate (Singleton table) (draw e 0) (draw e 1)
                               (draw e 2)).[0])
                (0.5 * (detectorSize (Singleton table)).[0])) as [H0|H0];
      [left; exact H0|].
    destruct (Rgt_dec (Rabs (candidate (Singleton table) (draw e 0) (draw e 1)
                               (draw e 2)).[1])
                (0.5 * (detectorSize (Singleton table)).[1])) as [H1|H1];
      [right; left; exact H1|].
    right; right. apply Rnot_le_gt. intros H2. apply Hn.
    apply detector_box_region. intros [G|[G|G]]; [contradiction|contradiction|lra].
  - intros Hin. apply Hrej. apply detector_box_region. exact Hin.
  - intros [|[|i]]; unfold detector_box, detectorPosition; simpl; lra.
Qed.

Lemma constructor_boxes_nest (table : spectrum_t) (p : double3) :
  let this := Singleton table in
  let bottom (b : box) := (fst b).[2] - (snd b).[2] in
  let top (b : box) := (fst b).[2] + (snd b).[2] in
  (in_box (world_box this) p
   <-> in_box (air_box this) p \/ in_box (ground_box this) p)
  /\ (in_box (air_box this) p -> in_box (ground_box this) p ->
      p.[2] = bottom (air_box this))
  /\ top (ground_box this) = bottom (air_box this)
  /\ (in_box (detector_box this) p -> in_box (air_box this) p)
  /\ bottom (detector_box this) - bottom (air_box this) = 5 * CLHEP.cm.
Proof.
  cbv zeta.
  unfold in_box, world_box, air_box, ground_box, detector_box, half,
    Singleton, new_DetectorConstruction, CLHEP.km, CLHEP.m, CLHEP.cm, CLHEP.mm.
  destruct p as [[p0 p1] p2]. cbn [fst snd get3 worldSize airSize groundSize
    detectorSize detectorOffset].
  repeat apply conj.
  - intros (H0 & H1 & H2).
    apply Rabs_le_bounds in H0. apply Rabs_le_bounds in H1.
    apply Rabs_le_bounds in H2.
    destruct (Rle_dec p2 (- 499500)) as [Hlow|Hhigh].
    + right. repeat split; apply Rabs_le; lra.
    + left. repeat split; apply Rabs_le; lra.
  - intros [(H0 & H1 & H2)|(H0 & H1 & H2)];
      apply Rabs_le_bounds in H0; apply Rabs_le_bounds in H1;
      apply Rabs_le_bounds in H2; repeat split; apply Rabs_le; lra.
  - intros (_ & _ & H2) (_ & _ & G2).
    apply Rabs_le_bounds in H2. apply Rabs_le_bounds in G2. lra.
  - lra.
  - intros (H0 & H1 & H2).
    apply Rabs_le_bounds in H0. apply Rabs_le_bounds in H1.
    apply Rabs_le_bounds in H2. repeat split; apply Rabs_le; lra.
  - lra.
Qed.

(** X19.  The volumes of the scene nest as a scene must.  In the scene
    [NewGeometry] builds, Air and Ground fill the World and meet only in
    the plane of the ground surface, and the Detector lies inside Air,
    its lower face 5 cm above that plane. *)
Theorem scene_boxes_nest (table : spectrum_t) (p : double3) :
  let bottom (b : box) := (fst b).[2] - (snd b).[2] in
  let top (b : box) := (fst b).[2] + (snd b).[2] in
  exists h root boxes bW bA bG bD,
    NewGeometry table [] = Some (root, h)
    /\ placed_boxes 3 h (0, 0, 0) root = Some boxes
    /\ scene_box boxes "World" = Some bW
    /\ scene_box boxes "Air" = Some bA
    /\ scene_box boxes "Ground" = Some bG
    /\ scene_box boxes "Detector" = Some bD
    /\ (in_box bW p <-> in_box bA p \/ in_box bG p)
    /\ (in_box bA p -> in_box bG p -> p.[2] = bottom bA)
    /\ top bG = bottom bA
    /\ (in_box bD p -> in_box bA p)
    /\ bottom bD - bottom bA = 5 * CLHEP.cm.
Proof.
  cbv zeta.
  destruct (Construct_scene (Singleton table)) as (h & root & Hc & _ & Hb).
  exists h, root. eexists.
  exists (world_box (Singleton table)), (air_box (Singleton table)),
    (ground_box (Singleton table)), (detector_box (Singleton table)).
  split; [exact Hc|]. split; [exact Hb|].
  do 4 (split; [reflexivity|]).
  apply (constructor_boxes_nest table p).
Qed.

(** X20.  Tearing down what was built.  [DropGeometry] on the placement
    [NewGeometry] returns runs without touching a deleted object and
    deletes all twelve objects of the scene, each once: the heap is
    left without a live cell.  A second [DropGeometry] on the same
    placement has no defined result. *)
Theorem DropGeometry_releases_the_scene (table : spectrum_t) :
  exists h top,
    NewGeometry table [] = Some (top, h)
    /\ length h = 12%nat
    /\ (forall fuel, (4 <= fuel)%nat ->
          DropGeometry fuel top h = Some (tt, repeat None 12))
    /\ (forall fuel, DropGeometry fuel top (repeat None 12) = None).
Proof.
  eexists. eexists. split; [reflexivity|]. split; [reflexivity|]. split.
  - intros fuel Hf. do 4 (destruct fuel as [|fuel]; [lia|]). reflexivity.
  - intros [|fuel]; reflexivity.
Qed.
